(** * Selective checkpointing: the [checkpoint] orchestration routine

    A shallow embedding of [elastic/core/notebook/checkpoint.py].  The Python
    routine walks the dependency graph, writes a size on every active variable
    snapshot, collects the overlapping pairs, asks the selector for a
    partition and hands everything to the checkpoint writer.

    Python objects have identity: a variable snapshot is a reference into a
    store, two snapshots are equal exactly when they are the same object, and
    assigning [vs.size] updates the store.  Exceptions abort the routine and
    leave the store as it was when they were raised. *)

From stdpp Require Import base option list sets gmap strings sorting.
From Stdlib Require Import ZArith NArith.

Open Scope string_scope.

(** ** Data model *)

(** [VariableSnapshot.size] is a byte count or [np.inf]. *)
Inductive Bytesize :=
| Bytes (n : N)
| Inf.

#[global] Instance Bytesize_eq_dec : EqDecision Bytesize.
Proof. solve_decision. Defined.

(** Identity of a [VariableSnapshot] object. *)
Definition vsref := positive.

(** The attributes [name], [version], [deleted] and [size] of a snapshot;
    the prefix keeps them apart from the library's [size]. *)
Record VariableSnapshot := mkVS {
  vs_name : string;
  vs_version : N;
  vs_deleted : bool;
  vs_size : Bytesize
}.

(** The object store: every reference one holds designates an object. *)
Definition Heap := vsref -> VariableSnapshot.

(** [vs.size = s] *)
Definition with_size (vs : VariableSnapshot) (s : Bytesize) : VariableSnapshot :=
  mkVS (vs_name vs) (vs_version vs) (vs_deleted vs) s.

Definition assign_size (h : Heap) (r : vsref) (s : Bytesize) : Heap :=
  fun r' => if decide (r' = r) then with_size (h r) s else h r'.

(** A compute edge, as far as [checkpoint] looks at it: [cell_num] and
    [cell_runtime].  The runtime is a float in the source and is only ever
    printed; it is carried here as an opaque measured quantity. *)
Record ComputeEdge := mkCE {
  cell_num : Z;
  cell_runtime : N
}.

(** [graph.variable_snapshots] is a dict from a name to the list of its
    versions, oldest first; a dict iterates in insertion order. *)
Record DependencyGraph := mkGraph {
  variable_snapshots : list (string * list vsref);
  compute_edges : list ComputeEdge
}.

(** A live Python value, seen through what [checkpoint] asks of it: its
    identity and [getattr(value, "__module__", None)]. *)
Record PyObj := mkObj {
  py_id : positive;
  py_module : option string
}.

Record Shell := mkShell {
  user_ns : gmap string PyObj
}.

(** The third component of a fingerprint entry is either an
    [UnserializableObj] marker or the fingerprinted object itself. *)
Inductive FingerprintObj :=
| UnserializableObj
| Tracked (o : PyObj).

(** [fingerprint_dict[name]] is a tuple: index 0 the identity token, index 1
    the set of storage-region identifiers, index 2 the object. *)
Record Fingerprint := mkFp {
  fp_token : Z;
  fp_regions : gset Z;
  fp_obj : FingerprintObj
}.

(** The selector object.  [checkpoint] assigns the first three attributes and
    reads the last two back after [select_vss]. *)
Record Selector := mkSelector {
  dependency_graph : option DependencyGraph;
  active_vss : gset vsref;
  overlapping_vss : list (vsref * vsref);
  recomputation_ces : PyObj
}.

(** ** Exceptions and observable events *)

Inductive exn :=
| KeyError (key : string)
| IndexError
| TypeError
| Failure (what : string).

#[global] Instance exn_eq_dec : EqDecision exn.
Proof. solve_decision. Defined.

Inductive Outcome (A : Type) :=
| Return (a : A)
| Raise (e : exn).
Arguments Return {A} a.
Arguments Raise {A} e.

(** Lines appended to the diagnostics file.  The timings themselves are wall
    clock differences and are left out. *)
Inductive LogLine :=
| LogOverlappings (n : nat)
| LogProfileStage
| LogIdgraphStage (t : N)
| LogRepresentationStage (t : N)
| LogOptimizeStage
| LogAddStage
| LogOptStage
| LogDiffStage
| LogMigrateStage.

(** The positional arguments of the call to [migrate], in source order. *)
Record MigrateArgs := mkMigrateArgs {
  m_graph : DependencyGraph;
  m_shell : Shell;
  m_vss_to_migrate : gset vsref;
  m_vss_to_recompute : gset vsref;
  m_ces_to_recompute : list ComputeEdge;
  m_udfs : gset string;
  m_recomputation_ces : PyObj;
  m_overlapping_vss : list (vsref * vsref);
  m_filename : string
}.

Inductive Event :=
| Print (line : string)
| PrintSized (vname : string) (s : Bytesize)
| PrintNames (names : list string)
| PrintCell (num : Z) (runtime : N)
| PrintCellNums (nums : list Z)
| LogWrite (path : string) (l : LogLine)
| CallSelect (s : Selector)
| CallUpdate (to_migrate to_recompute : gset vsref)
| CallMigrate (a : MigrateArgs).

(** ** The state and exception monad of the routine *)

(** The objects [checkpoint] is handed references to (the snapshots, the
    graph, the selector) and what has been printed and called so far. *)
Record World := mkWorld {
  heap : Heap;
  session_graph : DependencyGraph;
  selector : Selector;
  out : list Event
}.

Definition M (A : Type) : Type := World -> Outcome A * World.

#[global] Instance M_ret : MRet M := fun A a w => (Return a, w).

#[global] Instance M_bind : MBind M := fun A B k m w =>
  match m w with
  | (Return a, w') => k a w'
  | (Raise e, w') => (Raise e, w')
  end.

Definition raise {A} (e : exn) : M A := fun w => (Raise e, w).

Definition get_heap : M Heap := fun w => (Return (heap w), w).
Definition get_graph : M DependencyGraph := fun w => (Return (session_graph w), w).
Definition get_selector : M Selector := fun w => (Return (selector w), w).

Definition emit (e : Event) : M unit :=
  fun w => (Return tt, mkWorld (heap w) (session_graph w) (selector w) (out w ++ [e])).

Definition print (line : string) : M unit := emit (Print line).

Definition set_size (r : vsref) (s : Bytesize) : M unit :=
  fun w =>
    (Return tt, mkWorld (assign_size (heap w) r s) (session_graph w) (selector w) (out w)).

Definition set_selector (s : Selector) : M unit :=
  fun w => (Return tt, mkWorld (heap w) (session_graph w) s (out w)).

(** Lift the outcome of an external call. *)
Definition lift {A} (o : Outcome A) : M A := fun w => (o, w).

(** [for x in xs: body(x)] *)
Fixpoint for_each {A} (xs : list A) (body : A -> M unit) : M unit :=
  match xs with
  | [] => mret tt
  | x :: xs' => body x;; for_each xs' body
  end.

(** ** Python primitives *)

(** [needle in haystack] on [str]. *)
Fixpoint str_contains (needle haystack : string) : bool :=
  String.prefix needle haystack ||
  match haystack with
  | EmptyString => false
  | String _ rest => str_contains needle rest
  end.

(** [vs_list[-1]] *)
Definition last_item (vs_list : list vsref) : M vsref :=
  match last vs_list with
  | Some r => mret r
  | None => raise IndexError
  end.

(** [d[key]] on the user namespace. *)
Definition ns_item (ns : gmap string PyObj) (key : string) : M PyObj :=
  match ns !! key with
  | Some o => mret o
  | None => raise (KeyError key)
  end.

(** Truthiness of an optional string: [None] and [""] are falsy. *)
Definition truthy (s : option string) : bool :=
  match s with
  | None => false
  | Some "" => false
  | Some _ => true
  end.

(** [s1 + s2] where the right operand may be [None]: [str + None] raises
    [TypeError]. *)
Definition str_add (s1 : string) (s2 : option string) : M string :=
  match s2 with
  | Some s => mret (s1 ++ s)
  | None => raise TypeError
  end.

(** [profile_dict[key]] *)
Definition profile_item (profile_dict : gmap string N) (key : string) : M N :=
  match profile_dict !! key with
  | Some t => mret t
  | None => raise (KeyError key)
  end.

(** [isinstance(o, UnserializableObj)] *)
Definition is_unserializable (o : FingerprintObj) : bool :=
  match o with
  | UnserializableObj => true
  | Tracked _ => false
  end.

(** [attr_str and ("dataprep.eda" in attr_str or "bokeh" in attr_str)];
    [None] and the empty string are falsy. *)
Definition blacklisted (attr_str : option string) : bool :=
  match attr_str with
  | None => false
  | Some s =>
      truthy (Some s) && (str_contains "dataprep.eda" s || str_contains "bokeh" s)
  end.

(** [f"Warning: Variable '{name}' not found in fingerprint_dict"] *)
Definition missing_warning (name : string) : string :=
  "Warning: Variable '" ++ name ++ "' not found in fingerprint_dict".

(** The optional [elastic_notebook] argument, seen through the one method
    [checkpoint] calls on it. *)
Record ElasticNotebook := mkNotebook {
  update_migration_lists : gset vsref -> gset vsref -> Outcome unit
}.

(** ** The routine *)

Section Checkpoint.

(** *** External collaborators *)

(** Modelled from the spec: [profile_variable_size] is not part of this
    file; section 6 gives it as [measure_size(value) -> bytes], assumed to
    terminate and not to mutate the value. *)
Variable profile_variable_size : PyObj -> N.

(** Modelled from the spec: [Selector.select_vss] is not part of this file.
    It is given the selector object (whose attributes [checkpoint] has just
    assigned), reads the store, and either raises or returns the pair
    [(vss_to_migrate, ces_to_recompute)]; it may rebind attributes of the
    selector.  Section 3 has the optimizer only read and partition
    references to the snapshots. *)
Variable select_vss :
  Selector -> Heap -> option string -> option string -> option string ->
  Outcome (gset vsref * list ComputeEdge) * Selector.

(** Modelled from the spec: [migrate], the checkpoint writer, is not part
    of this file.  It raises or returns some value, which [checkpoint]
    does not look at. *)
Variable migrate : MigrateArgs -> Heap -> Outcome PyObj.

(** [open(path, "a")] on the diagnostics file. *)
Variable open_log : string -> Outcome unit.

(** Iteration order of a Python set: unspecified, but each element comes
    once, and the same set iterates the same way twice. *)
Variable set_iter : gset vsref -> list vsref.
Hypothesis set_iter_perm : forall X, set_iter X ≡ₚ elements X.

(** *** Lines 44-51: the active snapshots *)

Fixpoint collect_active (lists : list (list vsref)) (acc : gset vsref)
  : M (gset vsref) :=
  match lists with
  | [] => mret acc
  | vs_list :: rest =>
      r ← last_item vs_list;
      h ← get_heap;
      if negb (vs_deleted (h r)) then
        print ("name: " ++ vs_name (h r));;
        collect_active rest ({[r]} ∪ acc)
      else
        collect_active rest acc
  end.

Definition active_stage (graph : DependencyGraph) : M (gset vsref) :=
  print "---------------------------";;
  print "all variables:";;
  collect_active (map snd (variable_snapshots graph)) ∅.

(** *** Lines 54-71: size profiling *)

Definition profile_one (shell : Shell) (fingerprint_dict : gmap string Fingerprint)
    (active_vs : vsref) : M unit :=
  h ← get_heap;
  let name := vs_name (h active_vs) in
  match fingerprint_dict !! name with
  | None =>
      print (missing_warning name)
  | Some fp =>
      o ← ns_item (user_ns shell) name;
      let attr_str := py_module o in
      if is_unserializable (fp_obj fp) then
        set_size active_vs Inf
      else if blacklisted attr_str then
        set_size active_vs Inf
      else
        v ← ns_item (user_ns shell) name;
        set_size active_vs (Bytes (profile_variable_size v))
  end.

Definition profile_stage (shell : Shell) (fingerprint_dict : gmap string Fingerprint)
    (active : gset vsref) : M unit :=
  for_each (set_iter active) (profile_one shell fingerprint_dict).

(** *** Lines 75-88: pairwise overlaps *)

Definition overlap_step (fingerprint_dict : gmap string Fingerprint) (h : Heap)
    (active_vs1 active_vs2 : vsref) (acc : list (vsref * vsref))
  : list (vsref * vsref) :=
  if decide (active_vs1 ≠ active_vs2) then
    match fingerprint_dict !! vs_name (h active_vs1),
          fingerprint_dict !! vs_name (h active_vs2) with
    | Some fp1, Some fp2 =>
        if decide (fp_regions fp1 ∩ fp_regions fp2 ≠ ∅)
        then acc ++ [(active_vs1, active_vs2)]
        else acc
    | _, _ => acc
    end
  else acc.

Definition overlap_loops (fingerprint_dict : gmap string Fingerprint) (h : Heap)
    (order : list vsref) : list (vsref * vsref) :=
  foldl (fun acc vs1 =>
           foldl (fun acc vs2 => overlap_step fingerprint_dict h vs1 vs2 acc)
                 acc order)
        [] order.

Definition overlap_stage (fingerprint_dict : gmap string Fingerprint)
    (active : gset vsref) : M (list (vsref * vsref)) :=
  h ← get_heap;
  mret (overlap_loops fingerprint_dict h (set_iter active)).

(** *** The diagnostics file *)

Definition log_path (write_log_location : string)
    (notebook_name optimizer_name : option string) : M string :=
  p1 ← str_add (write_log_location ++ "/output_") notebook_name;
  p2 ← str_add (p1 ++ "_") optimizer_name;
  mret (p2 ++ ".txt").

(** [if write_log_location: with open(...) as f: body] *)
Definition with_log (write_log_location notebook_name optimizer_name : option string)
    (body : string -> M unit) : M unit :=
  if truthy write_log_location then
    path ← log_path (default "" write_log_location) notebook_name optimizer_name;
    lift (open_log path);;
    body path
  else mret tt.

Definition log_profile (profile_dict : gmap string N) (n_overlaps : nat)
    (path : string) : M unit :=
  emit (LogWrite path (LogOverlappings n_overlaps));;
  emit (LogWrite path LogProfileStage);;
  t1 ← profile_item profile_dict "idgraph";
  emit (LogWrite path (LogIdgraphStage t1));;
  t2 ← profile_item profile_dict "representation";
  emit (LogWrite path (LogRepresentationStage t2)).

Definition log_optimize (path : string) : M unit :=
  emit (LogWrite path LogOptimizeStage);;
  emit (LogWrite path LogAddStage);;
  emit (LogWrite path LogOptStage);;
  emit (LogWrite path LogDiffStage).

Definition log_migrate (path : string) : M unit :=
  emit (LogWrite path LogMigrateStage).

(** *** Lines 121-154: selection and the partition *)

Definition print_sized (r : vsref) : M unit :=
  h ← get_heap;
  emit (PrintSized (vs_name (h r)) (vs_size (h r))).

Definition print_cell (ce : ComputeEdge) : M unit :=
  emit (PrintCell (cell_num ce) (cell_runtime ce)).

Definition select_stage (graph : DependencyGraph) (active : gset vsref)
    (overlapping : list (vsref * vsref))
    (write_log_location notebook_name optimizer_name : option string)
  : M (gset vsref * list ComputeEdge) :=
  s ← get_selector;
  set_selector (mkSelector (Some graph) (active_vss s) (overlapping_vss s)
                           (recomputation_ces s));;
  s ← get_selector;
  set_selector (mkSelector (dependency_graph s) active (overlapping_vss s)
                           (recomputation_ces s));;
  s ← get_selector;
  set_selector (mkSelector (dependency_graph s) (active_vss s) overlapping
                           (recomputation_ces s));;
  s ← get_selector;
  h ← get_heap;
  emit (CallSelect s);;
  let '(result, s') := select_vss s h write_log_location notebook_name optimizer_name in
  set_selector s';;
  lift result.

Definition report_stage (vss_to_recompute : gset vsref)
    (ces_to_recompute : list ComputeEdge) : M unit :=
  print "---------------------------";;
  print "variables to recompute:";;
  for_each (set_iter vss_to_recompute) print_sized;;
  h ← get_heap;
  emit (PrintNames (map (fun r => vs_name (h r)) (set_iter vss_to_recompute)));;
  print "---------------------------";;
  print "cells to recompute:";;
  for_each ces_to_recompute print_cell;;
  emit (PrintCellNums
          (merge_sort Z.le (map (fun ce => (cell_num ce + 1)%Z) ces_to_recompute))).

(** *** Lines 186-203: publishing the lists and writing the checkpoint *)

Definition update_stage (elastic_notebook : option ElasticNotebook)
    (vss_to_migrate vss_to_recompute : gset vsref) : M unit :=
  match elastic_notebook with
  | Some nb =>
      emit (CallUpdate vss_to_migrate vss_to_recompute);;
      lift (update_migration_lists nb vss_to_migrate vss_to_recompute)
  | None => mret tt
  end.

Definition migrate_stage (a : MigrateArgs) : M unit :=
  h ← get_heap;
  emit (CallMigrate a);;
  lift (migrate a h);;
  mret tt.

(** *** [checkpoint]

    The [graph] argument is a reference to the session's graph object, which
    lives in the world; the routine reads it from there.  The calls to
    [time.time()] only feed the diagnostics file and are left out. *)

Definition checkpoint (shell : Shell)
    (fingerprint_dict : gmap string Fingerprint) (udfs : gset string)
    (filename : string) (profile_dict : gmap string N)
    (write_log_location notebook_name optimizer_name : option string)
    (elastic_notebook : option ElasticNotebook) : M bool :=
  graph ← get_graph;
  active ← active_stage graph;
  profile_stage shell fingerprint_dict active;;
  overlapping ← overlap_stage fingerprint_dict active;
  with_log write_log_location notebook_name optimizer_name
    (log_profile profile_dict (length overlapping));;
  '(vss_to_migrate, ces_to_recompute) ←
    select_stage graph active overlapping
      write_log_location notebook_name optimizer_name;
  print "---------------------------";;
  print "variables to migrate:";;
  for_each (set_iter vss_to_migrate) print_sized;;
  let vss_to_recompute := active ∖ vss_to_migrate in
  report_stage vss_to_recompute ces_to_recompute;;
  with_log write_log_location notebook_name optimizer_name log_optimize;;
  update_stage elastic_notebook vss_to_migrate vss_to_recompute;;
  let migrate_success := true in
  s ← get_selector;
  migrate_stage (mkMigrateArgs graph shell vss_to_migrate vss_to_recompute
                   ces_to_recompute udfs (recomputation_ces s)
                   (overlapping_vss s) filename);;
  with_log write_log_location notebook_name optimizer_name log_migrate;;
  mret migrate_success.

End Checkpoint.

(** A call of [checkpoint] starts with nothing printed yet. *)
Definition fresh_world (h : Heap) (g : DependencyGraph) (s : Selector) : World :=
  mkWorld h g s [].

(** ** Reading the trace *)

Definition select_calls (t : list Event) : list Selector :=
  omap (fun e => match e with CallSelect s => Some s | _ => None end) t.

Definition migrate_calls (t : list Event) : list MigrateArgs :=
  omap (fun e => match e with CallMigrate a => Some a | _ => None end) t.

(** ** What the specification says, in its own words *)

(** "The most recent VS of that name not marked deleted": the last of the
    versions that are not deleted. *)
Definition most_recent_not_deleted (h : Heap) (vs_list : list vsref) : option vsref :=
  last (filter (fun r => vs_deleted (h r) = false) vs_list).

(** The size the cost profiler is to assign to a fingerprinted variable. *)
Definition profiled_size (profile_variable_size : PyObj -> N)
    (fp : Fingerprint) (value : PyObj) : Bytesize :=
  if is_unserializable (fp_obj fp) || blacklisted (py_module value)
  then Inf
  else Bytes (profile_variable_size value).

(** Two active snapshots overlap: both names are fingerprinted and the
    region sets meet. *)
Definition overlap (fingerprint_dict : gmap string Fingerprint) (h : Heap)
    (r1 r2 : vsref) : Prop :=
  exists fp1 fp2,
    fingerprint_dict !! vs_name (h r1) = Some fp1 /\
    fingerprint_dict !! vs_name (h r2) = Some fp2 /\
    fp_regions fp1 ∩ fp_regions fp2 ≠ ∅.

(** ** Relating the world before and after a stage *)

Definition is_call (e : Event) : bool :=
  match e with
  | CallSelect _ | CallMigrate _ => true
  | _ => false
  end.

(** Nothing is called, the graph and the selector are left alone; the trace
    only grows. *)
Definition silent (w w' : World) : Prop :=
  session_graph w' = session_graph w /\
  selector w' = selector w /\
  exists evs, out w' = (out w ++ evs)%list /\
              select_calls evs = [] /\ migrate_calls evs = [].

(** Silent, and the store is untouched. *)
Definition quiet (w w' : World) : Prop :=
  heap w' = heap w /\ silent w w'.

(** Whatever was printed stays printed. *)
Definition grows (w w' : World) : Prop :=
  exists evs, out w' = (out w ++ evs)%list.

(** The store changes in [size] fields at most. *)
Definition sizes_only (h h' : Heap) : Prop :=
  forall r, vs_name (h' r) = vs_name (h r) /\
            vs_version (h' r) = vs_version (h r) /\
            vs_deleted (h' r) = vs_deleted (h r).

(** What one pass through the body of the inner loop appends. *)
Definition overlap_hit (fingerprint_dict : gmap string Fingerprint) (h : Heap)
    (vs1 vs2 : vsref) : list (vsref * vsref) :=
  overlap_step fingerprint_dict h vs1 vs2 [].

(** The selector as [checkpoint] leaves it just before [select_vss]: lines
    124-126 assign three attributes and keep the fourth. *)
Definition primed (graph : DependencyGraph) (active : gset vsref)
    (overlapping : list (vsref * vsref)) (s : Selector) : Selector :=
  mkSelector (Some graph) active overlapping (recomputation_ces s).

(** How a run that got past profiling ends.  [w] is the world at the call,
    [w2] the world after the profiling loop, [A] the active set. *)
Definition ended_after_profiling
    (select_vss : Selector -> Heap -> option string -> option string ->
                  option string ->
                  Outcome (gset vsref * list ComputeEdge) * Selector)
    (migrate : MigrateArgs -> Heap -> Outcome PyObj)
    (set_iter : gset vsref -> list vsref)
    (shell : Shell) (fingerprint_dict : gmap string Fingerprint)
    (udfs : gset string) (filename : string)
    (write_log_location notebook_name optimizer_name : option string)
    (elastic_notebook : option ElasticNotebook)
    (w w2 : World) (A : gset vsref) (o : Outcome bool) (w' : World) : Prop :=
  let s := primed (session_graph w) A
             (overlap_loops fingerprint_dict (heap w2) (set_iter A))
             (selector w) in
  let r := select_vss s (heap w2) write_log_location notebook_name
             optimizer_name in
  session_graph w' = session_graph w /\
  heap w' = heap w2 /\
  grows w2 w' /\
  ((* the first block of diagnostics raised *)
   ((exists e, o = Raise e) /\ truthy write_log_location = true /\
    selector w' = selector w /\
    select_calls (out w') = select_calls (out w) /\
    migrate_calls (out w') = migrate_calls (out w))
   \/
   (* the selector was called *)
   (select_calls (out w') = (select_calls (out w) ++ [s])%list /\
    selector w' = snd r /\
    match fst r with
    | Raise e => o = Raise e /\ migrate_calls (out w') = migrate_calls (out w)
    | Return (mig, ces) =>
        let a := mkMigrateArgs (session_graph w) shell mig (A ∖ mig) ces udfs
                   (recomputation_ces (snd r)) (overlapping_vss (snd r))
                   filename in
        (* the diagnostics or the notebook callback raised *)
        ((exists e, o = Raise e /\
                    (truthy write_log_location = true \/
                     exists nb, elastic_notebook = Some nb /\
                                update_migration_lists nb mig (A ∖ mig) = Raise e)) /\
         migrate_calls (out w') = migrate_calls (out w))
        \/
        (* the writer was called *)
        (migrate_calls (out w') = (migrate_calls (out w) ++ [a])%list /\
         match migrate a (heap w2) with
         | Raise e => o = Raise e
         | Return _ =>
             o = Return true \/
             ((exists e, o = Raise e) /\ truthy write_log_location = true)
         end)
    end)).

(** ** A small session, used to run the routine on concrete inputs *)

Module Session.

(** [x] was assigned and later deleted; [a] and [b] share storage; [c] is
    unserializable; [d] has no fingerprint; [e] is a plotting object. *)
Definition store : Heap := fun r =>
  match r with
  | 1%positive => mkVS "x" 0 false (Bytes 0)
  | 2%positive => mkVS "x" 1 true (Bytes 0)
  | 3%positive => mkVS "a" 0 false (Bytes 0)
  | 4%positive => mkVS "b" 0 false (Bytes 0)
  | 5%positive => mkVS "c" 0 false (Bytes 0)
  | 6%positive => mkVS "d" 0 false (Bytes 7)
  | 7%positive => mkVS "e" 0 false (Bytes 0)
  | _ => mkVS "" 0 true (Bytes 0)
  end.

Definition graph : DependencyGraph :=
  mkGraph [("x", [1; 2]); ("a", [3]); ("b", [4]); ("c", [5]); ("d", [6]); ("e", [7])]%positive
          [mkCE 0 5; mkCE 1 2].

Definition only_x : DependencyGraph := mkGraph [("x", [1; 2])]%positive [].

Definition only_ab : DependencyGraph := mkGraph [("a", [3]); ("b", [4])]%positive [].

Definition fingerprints : gmap string Fingerprint :=
  <["a" := mkFp 100 {[10; 11]}%Z (Tracked (mkObj 1 (Some "builtins")))]>
  (<["b" := mkFp 101 {[11; 12]}%Z (Tracked (mkObj 2 None))]>
  (<["c" := mkFp 102 {[13]}%Z UnserializableObj]>
  (<["e" := mkFp 104 {[14]}%Z (Tracked (mkObj 5 (Some "bokeh.models.plots")))]> ∅))).

Definition namespace : gmap string PyObj :=
  <["a" := mkObj 1 (Some "builtins")]>
  (<["b" := mkObj 2 None]>
  (<["c" := mkObj 3 None]>
  (<["d" := mkObj 4 None]>
  (<["e" := mkObj 5 (Some "bokeh.models.plots")]> ∅)))).

Definition shell : Shell := mkShell namespace.

(** The same session after [a] has gone from the namespace. *)
Definition shell_without_a : Shell := mkShell (delete "a" namespace).

Definition sizeof (o : PyObj) : N := 8 * Npos (py_id o).

Definition idle_selector : Selector := mkSelector None ∅ [] (mkObj 90 None).

(** A selector that migrates every active snapshot. *)
Definition migrate_all (s : Selector) (h : Heap) (_ _ _ : option string)
  : Outcome (gset vsref * list ComputeEdge) * Selector :=
  (Return (active_vss s, []),
   mkSelector (dependency_graph s) (active_vss s) (overlapping_vss s) (mkObj 91 None)).

(** A selector that gives up. *)
Definition failing_selector (s : Selector) (h : Heap) (_ _ _ : option string)
  : Outcome (gset vsref * list ComputeEdge) * Selector :=
  (Raise (Failure "no feasible partition"), s).

(** A selector that migrates what has a finite size and replays one cell
    for the rest. *)
Definition migrate_finite (s : Selector) (h : Heap) (_ _ _ : option string)
  : Outcome (gset vsref * list ComputeEdge) * Selector :=
  (Return (filter (fun r => vs_size (h r) ≠ Inf) (active_vss s), [mkCE 0 5]),
   mkSelector (dependency_graph s) (active_vss s) (overlapping_vss s) (mkObj 91 None)).

Definition writer (a : MigrateArgs) (h : Heap) : Outcome PyObj :=
  Return (mkObj 92 None).

Definition failing_writer (a : MigrateArgs) (h : Heap) : Outcome PyObj :=
  Raise (Failure "cannot write checkpoint").

Definition open_ok (path : string) : Outcome unit := Return tt.

Definition order (X : gset vsref) : list vsref := elements X.

Definition start (g : DependencyGraph) : World := fresh_world store g idle_selector.

Definition run (g : DependencyGraph) (sh : Shell) select write
  : Outcome bool * World :=
  checkpoint sizeof select write open_ok order sh fingerprints ∅
             "ckpt.pickle" ∅ None None None None (start g).

End Session.

(** ** The calls to the collaborators, in order *)

Definition external (e : Event) : bool :=
  match e with
  | CallSelect _ | CallUpdate _ _ | CallMigrate _ => true
  | _ => false
  end.

(** The trace with everything printed or logged taken out. *)
Definition calls (t : list Event) : list Event :=
  omap (fun e => if external e then Some e else None) t.

(** A computation that adds to the trace only events of one kind. *)
Definition emits (P : Event -> Prop) {A} (m : M A) : Prop :=
  forall w o w', m w = (o, w') ->
    exists evs, out w' = (out w ++ evs)%list /\ Forall P evs.

Definition internal (e : Event) : Prop := external e = false.

(** [if elastic_notebook is not None: elastic_notebook.update_migration_lists(...)] *)
Definition notebook_call (elastic_notebook : option ElasticNotebook)
    (vss_to_migrate vss_to_recompute : gset vsref) : list Event :=
  match elastic_notebook with
  | Some _ => [CallUpdate vss_to_migrate vss_to_recompute]
  | None => []
  end.

(** The calls one run of [checkpoint] can have made, by where it ended:
    before the selector; at or after the selector but before the notebook;
    in the notebook's callback, which raised; or at or after the writer, the
    callback (if any) having returned. *)
Definition call_sequence (elastic_notebook : option ElasticNotebook)
    (o : Outcome bool) (C : list Event) : Prop :=
  (C = [] /\ exists e, o = Raise e) \/
  (exists s, C = [CallSelect s] /\ exists e, o = Raise e) \/
  (exists s vss_to_migrate vss_to_recompute nb e,
     C = [CallSelect s; CallUpdate vss_to_migrate vss_to_recompute] /\
     elastic_notebook = Some nb /\
     update_migration_lists nb vss_to_migrate vss_to_recompute = Raise e /\
     o = Raise e) \/
  (exists s a,
     C = ([CallSelect s] ++
          notebook_call elastic_notebook (m_vss_to_migrate a)
                        (m_vss_to_recompute a) ++
          [CallMigrate a])%list /\
     forall nb,
       elastic_notebook = Some nb ->
       update_migration_lists nb (m_vss_to_migrate a) (m_vss_to_recompute a)
       = Return tt).

(** [write_log_location + "/output_" + notebook_name + "_" + optimizer_name
    + ".txt"], when all three are strings. *)
Definition diagnostics_path (write_log_location notebook_name optimizer_name : string)
  : string :=
  ((((write_log_location ++ "/output_") ++ notebook_name) ++ "_")
     ++ optimizer_name) ++ ".txt".

(** [needle in haystack], said with concatenation. *)
Definition substring_of (needle haystack : string) : Prop :=
  exists before after, haystack = before ++ needle ++ after.

(** ** More sessions *)

Module Probe.

(** A graph in which [y] is tracked but has no version yet. *)
Definition graph_with_empty : DependencyGraph :=
  mkGraph [("a", [3]); ("y", []); ("b", [4])]%positive [].

(** A notebook that accepts the lists, and one that refuses them. *)
Definition notebook : ElasticNotebook := mkNotebook (fun _ _ => Return tt).

Definition refusing_notebook : ElasticNotebook :=
  mkNotebook (fun _ _ => Raise (Failure "lists are read-only")).

Definition timings : gmap string N :=
  <["idgraph" := 3%N]> (<["representation" := 4%N]> ∅).

Definition open_denied (path : string) : Outcome unit :=
  Raise (Failure "permission denied").

(** Sets iterated from the largest reference down. *)
Definition backwards (X : gset vsref) : list vsref := reverse (elements X).

Definition run (g : DependencyGraph) (sh : Shell) select write open_log
    (profile_dict : gmap string N)
    (write_log_location notebook_name optimizer_name : option string)
    (elastic_notebook : option ElasticNotebook)
  : Outcome bool * World :=
  checkpoint Session.sizeof select write open_log Session.order sh
             Session.fingerprints ∅ "ckpt.pickle" profile_dict
             write_log_location notebook_name optimizer_name elastic_notebook
             (Session.start g).

End Probe.

(** * Properties *)

(** ** The monad *)

Lemma bind_inv {A B} (m : M A) (k : A -> M B) w o w' :
  (m ≫= k) w = (o, w') ->
  (exists a w1, m w = (Return a, w1) /\ k a w1 = (o, w')) \/
  (exists e, m w = (Raise e, w') /\ o = Raise e).
Proof.
  unfold mbind, M_bind. destruct (m w) as [[a|e] w1]; intros H.
  - left. eauto.
  - right. inversion H; subst. eauto.
Qed.

Lemma bind_return {A B} (m : M A) (k : A -> M B) w a w1 :
  m w = (Return a, w1) -> (m ≫= k) w = k a w1.
Proof. unfold mbind, M_bind. intros ->. reflexivity. Qed.

Lemma bind_raise {A B} (m : M A) (k : A -> M B) w e w1 :
  m w = (Raise e, w1) -> (m ≫= k) w = (Raise e, w1).
Proof. unfold mbind, M_bind. intros ->. reflexivity. Qed.

(** [unbind H as a w1 Ha] splits [H : (m ≫= k) w = (o, w')] into the run of [m],
    named [Ha], and the run of the continuation, which stays in [H]; the
    second goal is the one where [m] raised. *)
Ltac settle_raise E :=
  first
    [ discriminate E
    | match type of E with ?o = _ => is_var o; subst o end
    | injection E as E; try subst
    | idtac ].

Tactic Notation "unbind" hyp(H) "as" simple_intropattern(a) ident(w1) ident(Ha) :=
  let E := fresh "E" in
  apply bind_inv in H as [(a & w1 & Ha & H) | (? & H & E)];
  [ | settle_raise E ].

Lemma silent_refl w : silent w w.
Proof. do 2 (split; [reflexivity|]). exists []. rewrite app_nil_r. auto. Qed.

Lemma silent_trans w1 w2 w3 : silent w1 w2 -> silent w2 w3 -> silent w1 w3.
Proof.
  intros (G1 & S1 & e1 & O1 & A1 & B1) (G2 & S2 & e2 & O2 & A2 & B2).
  do 2 (split; [congruence|]). exists (e1 ++ e2)%list.
  rewrite O2, O1, <- app_assoc. split; [reflexivity|].
  unfold select_calls, migrate_calls in *. rewrite !omap_app.
  rewrite A1, A2, B1, B2. auto.
Qed.

Lemma quiet_refl w : quiet w w.
Proof. split; [reflexivity | apply silent_refl]. Qed.

Lemma quiet_trans w1 w2 w3 : quiet w1 w2 -> quiet w2 w3 -> quiet w1 w3.
Proof.
  intros [H1 S1] [H2 S2]. split; [congruence | eapply silent_trans; eauto].
Qed.

Lemma quiet_silent w w' : quiet w w' -> silent w w'.
Proof. intros [_ S]. exact S. Qed.

Lemma grows_refl w : grows w w.
Proof. exists []. by rewrite app_nil_r. Qed.

Lemma grows_trans w1 w2 w3 : grows w1 w2 -> grows w2 w3 -> grows w1 w3.
Proof.
  intros [e1 O1] [e2 O2]. exists (e1 ++ e2)%list.
  by rewrite O2, O1, <- app_assoc.
Qed.

Lemma silent_grows w w' : silent w w' -> grows w w'.
Proof. intros (_ & _ & evs & O & _). by exists evs. Qed.

Lemma quiet_grows w w' : quiet w w' -> grows w w'.
Proof. intros Q. by apply silent_grows, quiet_silent. Qed.

Ltac chain_grows :=
  repeat first [ apply grows_refl | eapply grows_trans; [eassumption|] ].

Lemma sizes_only_refl h : sizes_only h h.
Proof. intros r. auto. Qed.

Lemma sizes_only_trans h1 h2 h3 :
  sizes_only h1 h2 -> sizes_only h2 h3 -> sizes_only h1 h3.
Proof.
  intros A B r. destruct (A r) as (a1 & a2 & a3), (B r) as (b1 & b2 & b3).
  repeat split; congruence.
Qed.

Lemma sizes_only_assign h r s : sizes_only h (assign_size h r s).
Proof.
  intros r'. unfold assign_size. destruct (decide (r' = r)) as [->|]; auto.
Qed.

Lemma emit_quiet e w o w' :
  is_call e = false -> emit e w = (o, w') -> o = Return tt /\ quiet w w'.
Proof.
  intros C H. unfold emit in H. inversion H; subst; clear H.
  split; [reflexivity|]. do 3 (split; [reflexivity|]).
  exists [e]. split; [reflexivity|]. destruct e; try discriminate C; auto.
Qed.

Lemma raise_inv {A} e w (o : Outcome A) w' :
  raise e w = (o, w') -> o = Raise e /\ w' = w.
Proof. unfold raise. intros H. inversion H. auto. Qed.

Lemma ret_inv {A} (a : A) w o w' :
  (mret a : M A) w = (o, w') -> o = Return a /\ w' = w.
Proof. unfold mret, M_ret. intros H. inversion H. auto. Qed.

Lemma get_heap_inv w o w' :
  get_heap w = (o, w') -> o = Return (heap w) /\ w' = w.
Proof. unfold get_heap. intros H. inversion H. auto. Qed.

Lemma get_selector_inv w o w' :
  get_selector w = (o, w') -> o = Return (selector w) /\ w' = w.
Proof. unfold get_selector. intros H. inversion H. auto. Qed.

Lemma for_each_quiet {A} (body : A -> M unit) xs :
  (forall x w o w', body x w = (o, w') -> quiet w w') ->
  forall w o w', for_each xs body w = (o, w') -> quiet w w'.
Proof.
  intros Hb. induction xs as [|x xs IH]; intros w o w' H; simpl in H.
  - apply ret_inv in H as [_ ->]. apply quiet_refl.
  - unbind H as ? w1 Hx.
    + eapply quiet_trans; [eapply Hb | eapply IH]; eauto.
    + eapply Hb; eauto.
Qed.

(** ** Lines 44-51: the active snapshots *)

Lemma print_quiet line w o w' :
  print line w = (o, w') -> o = Return tt /\ quiet w w'.
Proof. apply emit_quiet. reflexivity. Qed.

Lemma last_item_inv vs_list w o w' :
  last_item vs_list w = (o, w') ->
  w' = w /\
  ((exists r, last vs_list = Some r /\ o = Return r) \/
   (vs_list = [] /\ o = Raise IndexError)).
Proof.
  unfold last_item. destruct (last vs_list) as [r|] eqn:L; intros H.
  - apply ret_inv in H as [-> ->]. split; [reflexivity|]. left. eauto.
  - apply raise_inv in H as [-> ->]. split; [reflexivity|]. right.
    split; [|reflexivity]. by apply last_None.
Qed.

Lemma collect_active_spec lists : forall acc w o w',
  collect_active lists acc w = (o, w') ->
  quiet w w' /\
  match o with
  | Return A =>
      (forall l, l ∈ lists -> l ≠ []) /\
      forall r, r ∈ A <->
                r ∈ acc \/
                exists l, l ∈ lists /\ last l = Some r /\
                          vs_deleted (heap w r) = false
  | Raise e => e = IndexError /\ [] ∈ lists
  end.
Proof.
  induction lists as [|l lists IH]; intros acc w o w' H; simpl in H.
  - apply ret_inv in H as [-> ->]. split; [apply quiet_refl|]. split.
    + intros l Hl. by apply elem_of_nil in Hl.
    + intros r. split; [auto|]. intros [?|(l & Hl & _)]; [done|].
      by apply elem_of_nil in Hl.
  - unbind H as r w1 Hl.
    2:{ apply last_item_inv in H as [-> [(r & _ & ?)|[-> [= ->]]]]; [done|].
        split; [apply quiet_refl|]. simpl. split; [reflexivity|]. apply list_elem_of_here. }
    apply last_item_inv in Hl as [-> [(r' & L & [= <-])|[_ ?]]]; [|done].
    unbind H as h w2 Hg; [|by apply get_heap_inv in H as [? _]].
    apply get_heap_inv in Hg as [[= ->] ->].
    destruct (vs_deleted (heap w r)) eqn:D; simpl in H.
    + apply IH in H as [Q P]. split; [exact Q|].
      destruct o as [A|e].
      * destruct P as [NE P]. split.
        { intros l' [->|Hl']%elem_of_cons; [|by apply NE].
          intros ->. discriminate L. }
        intros r'. rewrite P. split.
        { intros [?|(l' & Hl' & ? & ?)]; [by left|].
          right. exists l'. split; [by apply list_elem_of_further | done]. }
        intros [?|(l' & [->|Hl']%elem_of_cons & L' & D')]; [by left | | ].
        { rewrite L in L'. inversion L'; subst. congruence. }
        right. eauto.
      * destruct P as [-> P]. split; [reflexivity|]. by apply list_elem_of_further.
    + unbind H as ? w1 Hp.
      2:{ apply print_quiet in H as [? _]. done. }
      apply print_quiet in Hp as [_ Q1].
      apply IH in H as [Q2 P].
      assert (Hheap : heap w1 = heap w) by apply Q1.
      split; [eapply quiet_trans; eauto|].
      destruct o as [A|e].
      * destruct P as [NE P]. split.
        { intros l' [->|Hl']%elem_of_cons; [|by apply NE].
          intros ->. discriminate L. }
        intros r'. rewrite P, Hheap. split.
        { intros [[->%elem_of_singleton|?]%elem_of_union|(l' & Hl' & ? & ?)].
          - right. exists l. split; [apply list_elem_of_here | done].
          - by left.
          - right. exists l'. split; [by apply list_elem_of_further | done]. }
        intros [?|(l' & [->|Hl']%elem_of_cons & L' & D')].
        { left. apply elem_of_union. by right. }
        { rewrite L in L'. inversion L'; subst. left. apply elem_of_union. left. by apply elem_of_singleton. }
        right. eauto.
      * destruct P as [-> P]. split; [reflexivity|]. by apply list_elem_of_further.
Qed.

Lemma active_stage_spec graph w o w' :
  active_stage graph w = (o, w') ->
  quiet w w' /\
  match o with
  | Return A =>
      (forall n l, (n, l) ∈ variable_snapshots graph -> l ≠ []) /\
      forall r, r ∈ A <->
                exists n l, (n, l) ∈ variable_snapshots graph /\
                            last l = Some r /\ vs_deleted (heap w r) = false
  | Raise e =>
      e = IndexError /\ exists n, (n, []) ∈ variable_snapshots graph
  end.
Proof.
  unfold active_stage. intros H.
  unbind H as ? w1 Hp; [|by apply print_quiet in H as [? _]].
  apply print_quiet in Hp as [_ Q1].
  unbind H as ? w2 Hp; [|by apply print_quiet in H as [? _]].
  apply print_quiet in Hp as [_ Q2].
  apply collect_active_spec in H as [Q3 P].
  assert (Q : quiet w w2) by (eapply quiet_trans; eauto).
  assert (Hheap : heap w2 = heap w) by apply Q.
  split; [eapply quiet_trans; eauto|].
  destruct o as [A|e].
  - destruct P as [NE P]. split.
    + intros n l Hl. apply NE. apply list_elem_of_fmap. by exists (n, l).
    + intros r. rewrite P, Hheap. split.
      * intros [Hr|(l & Hl & ? & ?)]; [set_solver|].
        apply list_elem_of_fmap in Hl as ([n l'] & -> & Hl). eauto.
      * intros (n & l & Hl & ? & ?). right. exists l. split; [|done].
        apply list_elem_of_fmap. by exists (n, l).
  - destruct P as [-> P]. split; [reflexivity|].
    apply list_elem_of_fmap in P as ([n l'] & E & Hl). simpl in E. subst l'. eauto.
Qed.

(** ** Lines 54-71: size profiling *)

Section Profiling.

Variable profile_variable_size : PyObj -> N.
Variable shell : Shell.
Variable fingerprint_dict : gmap string Fingerprint.

Lemma ns_item_inv ns key w o w' :
  ns_item ns key w = (o, w') ->
  w' = w /\
  match ns !! key with
  | Some v => o = Return v
  | None => o = Raise (KeyError key)
  end.
Proof.
  unfold ns_item. destruct (ns !! key); intros H.
  - by apply ret_inv in H as [-> ->].
  - by apply raise_inv in H as [-> ->].
Qed.

Lemma set_size_inv r s w o w' :
  set_size r s w = (o, w') ->
  o = Return tt /\ heap w' = assign_size (heap w) r s /\
  session_graph w' = session_graph w /\
  selector w' = selector w /\ out w' = out w.
Proof. unfold set_size. intros H. inversion H. auto 6. Qed.

(** One iteration of the profiling loop, case by case. *)
Lemma profile_one_spec r w o w' :
  profile_one profile_variable_size shell fingerprint_dict r w = (o, w') ->
  (session_graph w' = session_graph w /\ selector w' = selector w) /\
  match fingerprint_dict !! vs_name (heap w r) with
  | None =>
      o = Return tt /\ heap w' = heap w /\
      out w' = (out w ++ [Print (missing_warning (vs_name (heap w r)))])%list
  | Some fp =>
      out w' = out w /\
      match user_ns shell !! vs_name (heap w r) with
      | None => o = Raise (KeyError (vs_name (heap w r))) /\ heap w' = heap w
      | Some v =>
          o = Return tt /\
          heap w' = assign_size (heap w) r (profiled_size profile_variable_size fp v)
      end
  end.
Proof.
  unfold profile_one. intros H.
  unbind H as h w1 Hg; [|by apply get_heap_inv in H as [? _]].
  apply get_heap_inv in Hg as [[= ->] ->].
  destruct (fingerprint_dict !! vs_name (heap w r)) as [fp|].
  2:{ unfold print, emit in H. inversion H; subst. auto. }
  unbind H as v w1 Hv.
  2:{ apply ns_item_inv in H as [-> H].
      destruct (user_ns shell !! vs_name (heap w r)); [done|].
      inversion H; subst. auto. }
  apply ns_item_inv in Hv as [-> Hv].
  destruct (user_ns shell !! vs_name (heap w r)) as [v'|] eqn:Ens; [|done].
  inversion Hv; subst v'; clear Hv.
  unfold profiled_size.
  destruct (is_unserializable (fp_obj fp)); simpl.
  { apply set_size_inv in H as (-> & -> & -> & -> & ->). auto. }
  destruct (blacklisted (py_module v)); simpl.
  { apply set_size_inv in H as (-> & -> & -> & -> & ->). auto. }
  unbind H as v2 w2 Hv2.
  2:{ apply ns_item_inv in H as [_ H]. rewrite Ens in H. done. }
  apply ns_item_inv in Hv2 as [-> Hv2]. rewrite Ens in Hv2.
  inversion Hv2; subst v2.
  apply set_size_inv in H as (-> & -> & -> & -> & ->). auto.
Qed.

Lemma profile_one_silent r w o w' :
  profile_one profile_variable_size shell fingerprint_dict r w = (o, w') ->
  silent w w' /\ sizes_only (heap w) (heap w').
Proof.
  intros H. apply profile_one_spec in H as [[G S] H].
  destruct (fingerprint_dict !! vs_name (heap w r)) as [fp|].
  - destruct H as [O H]. split.
    + do 2 (split; [done|]). exists []. rewrite app_nil_r. auto.
    + destruct (user_ns shell !! vs_name (heap w r)); destruct H as [_ ->].
      * apply sizes_only_assign.
      * apply sizes_only_refl.
  - destruct H as (_ & -> & O). split; [|apply sizes_only_refl].
    do 2 (split; [done|]). eexists. split; [exact O|]. auto.
Qed.

(** The whole loop over some iteration order of the active set. *)
Lemma profile_loop_spec order : forall w o w',
  for_each order (profile_one profile_variable_size shell fingerprint_dict) w
    = (o, w') ->
  silent w w' /\
  sizes_only (heap w) (heap w') /\
  (forall r, r ∉ order \/ fingerprint_dict !! vs_name (heap w r) = None ->
             vs_size (heap w' r) = vs_size (heap w r)) /\
  match o with
  | Return _ =>
      forall r, r ∈ order ->
        match fingerprint_dict !! vs_name (heap w r) with
        | Some fp =>
            exists v, user_ns shell !! vs_name (heap w r) = Some v /\
                      vs_size (heap w' r) = profiled_size profile_variable_size fp v
        | None => Print (missing_warning (vs_name (heap w r))) ∈ out w'
        end
  | Raise e =>
      exists r, r ∈ order /\
                is_Some (fingerprint_dict !! vs_name (heap w r)) /\
                user_ns shell !! vs_name (heap w r) = None /\
                e = KeyError (vs_name (heap w r))
  end.
Proof.
  induction order as [|x order IH]; intros w o w' H; simpl in H.
  - apply ret_inv in H as [-> ->].
    split; [apply silent_refl|]. split; [apply sizes_only_refl|].
    split; [auto|]. intros r Hr. by apply elem_of_nil in Hr.
  - unbind H as ? w1 Hx.
    + pose proof (profile_one_silent _ _ _ _ Hx) as [S1 Z1].
      apply profile_one_spec in Hx as [_ Hx].
      apply IH in H as (S2 & Z2 & F2 & P2).
      assert (Hn : forall r, vs_name (heap w1 r) = vs_name (heap w r))
        by (intros r; apply Z1).
      split; [eapply silent_trans; eauto|].
      split; [eapply sizes_only_trans; eauto|].
      assert (Hx_other : forall r, r ≠ x -> vs_size (heap w1 r) = vs_size (heap w r)).
      { intros r Hr. destruct (fingerprint_dict !! vs_name (heap w x)).
        - destruct Hx as [_ Hx].
          destruct (user_ns shell !! vs_name (heap w x)); destruct Hx as [_ ->];
            [|done].
          unfold assign_size. by destruct (decide (r = x)).
        - by destruct Hx as (_ & -> & _). }
      split.
      { intros r Hr. rewrite F2.
        - destruct Hr as [Hr|Hr].
          + apply Hx_other. intros ->. apply Hr, list_elem_of_here.
          + destruct (decide (r = x)) as [->|]; [|by apply Hx_other].
            rewrite Hr in Hx. by destruct Hx as (_ & -> & _).
        - rewrite Hn. destruct Hr as [Hr|Hr]; [left|by right].
          intros ?. apply Hr. by apply list_elem_of_further. }
      destruct o as [[]|e].
      * intros r Hr.
        destruct (decide (r ∈ order)) as [Hin|Hout].
        { specialize (P2 r Hin). by rewrite Hn in P2. }
        apply elem_of_cons in Hr as [->|]; [|done].
        destruct (fingerprint_dict !! vs_name (heap w x)) as [fp|] eqn:Efp.
        -- destruct Hx as [_ Hx].
           destruct (user_ns shell !! vs_name (heap w x)) as [v|];
             destruct Hx as [[=] Hx].
           exists v. split; [reflexivity|].
           rewrite F2 by (by left). rewrite Hx. unfold assign_size.
           by rewrite decide_True.
        -- destruct Hx as (_ & _ & O1). destruct S2 as (_ & _ & evs & -> & _).
           rewrite O1. apply elem_of_app. left. apply elem_of_app. right.
           apply list_elem_of_here.
      * destruct P2 as (r & Hr & P2). exists r. rewrite <- Hn.
        split; [by apply list_elem_of_further | exact P2].
    + pose proof (profile_one_silent _ _ _ _ H) as [S1 Z1].
      apply profile_one_spec in H as [_ H].
      split; [exact S1|]. split; [exact Z1|].
      destruct (fingerprint_dict !! vs_name (heap w x)) as [fp|] eqn:Efp.
      2:{ by destruct H as ([=] & _). }
      destruct H as [_ H].
      destruct (user_ns shell !! vs_name (heap w x)) as [v|] eqn:Ens;
        destruct H as [[=] Hh]. subst.
      split; [intros r _; by rewrite Hh|].
      exists x. split; [apply list_elem_of_here|]. rewrite Efp. eauto.
Qed.

End Profiling.

(** ** Lines 75-88: pairwise overlaps *)

Section Overlaps.

Variable fingerprint_dict : gmap string Fingerprint.
Variable h : Heap.

Lemma overlap_step_app vs1 vs2 acc :
  overlap_step fingerprint_dict h vs1 vs2 acc
  = (acc ++ overlap_hit fingerprint_dict h vs1 vs2)%list.
Proof.
  unfold overlap_hit, overlap_step.
  destruct (decide (vs1 ≠ vs2)); [|by rewrite app_nil_r].
  destruct (fingerprint_dict !! vs_name (h vs1)) as [fp1|]; [|by rewrite app_nil_r].
  destruct (fingerprint_dict !! vs_name (h vs2)) as [fp2|]; [|by rewrite app_nil_r].
  destruct (decide (fp_regions fp1 ∩ fp_regions fp2 ≠ ∅)); [done|by rewrite app_nil_r].
Qed.

Lemma overlap_hit_cases vs1 vs2 :
  (overlap_hit fingerprint_dict h vs1 vs2 = [(vs1, vs2)] /\
   vs1 ≠ vs2 /\ overlap fingerprint_dict h vs1 vs2) \/
  (overlap_hit fingerprint_dict h vs1 vs2 = [] /\
   ~ (vs1 ≠ vs2 /\ overlap fingerprint_dict h vs1 vs2)).
Proof.
  unfold overlap_hit, overlap_step, overlap.
  destruct (decide (vs1 ≠ vs2)) as [Hne|Heq]; [|right; split; [done|tauto]].
  destruct (fingerprint_dict !! vs_name (h vs1)) as [fp1|].
  2:{ right. split; [done|]. intros (_ & ? & ? & ? & _). done. }
  destruct (fingerprint_dict !! vs_name (h vs2)) as [fp2|].
  2:{ right. split; [done|]. intros (_ & ? & ? & _ & ? & _). done. }
  destruct (decide (fp_regions fp1 ∩ fp_regions fp2 ≠ ∅)) as [Hi|Hd].
  - left. split; [done|]. split; [done|]. eauto.
  - right. split; [done|]. intros (_ & ? & ? & [= <-] & [= <-] & ?). done.
Qed.

Lemma inner_loop_app vs1 order acc :
  foldl (fun acc vs2 => overlap_step fingerprint_dict h vs1 vs2 acc) acc order
  = (acc ++ (order ≫= overlap_hit fingerprint_dict h vs1))%list.
Proof.
  revert acc. induction order as [|vs2 order IH]; intros acc.
  - simpl. by rewrite app_nil_r.
  - rewrite bind_cons. cbn [foldl].
    rewrite IH, overlap_step_app. by rewrite <- app_assoc.
Qed.

Lemma outer_loop_app order outer acc :
  foldl (fun acc vs1 =>
           foldl (fun acc vs2 => overlap_step fingerprint_dict h vs1 vs2 acc)
                 acc order)
        acc outer
  = (acc ++ (outer ≫= fun vs1 => order ≫= overlap_hit fingerprint_dict h vs1))%list.
Proof.
  revert acc. induction outer as [|vs1 outer IH]; intros acc.
  - simpl. by rewrite app_nil_r.
  - rewrite bind_cons. cbn [foldl].
    rewrite IH, inner_loop_app. by rewrite <- app_assoc.
Qed.

Lemma overlap_loops_bind order :
  overlap_loops fingerprint_dict h order
  = order ≫= fun vs1 => order ≫= overlap_hit fingerprint_dict h vs1.
Proof. unfold overlap_loops. by rewrite outer_loop_app. Qed.

(** The list holds the ordered pairs of distinct overlapping snapshots. *)
Lemma overlap_loops_elem order vs1 vs2 :
  (vs1, vs2) ∈ overlap_loops fingerprint_dict h order <->
  vs1 ∈ order /\ vs2 ∈ order /\ vs1 ≠ vs2 /\
  overlap fingerprint_dict h vs1 vs2.
Proof.
  rewrite overlap_loops_bind, list_elem_of_bind. split.
  - intros (a & (b & Hp & Hb)%list_elem_of_bind & Ha).
    destruct (overlap_hit_cases a b) as [(E & ? & ?)|(E & _)]; rewrite E in Hp.
    + apply list_elem_of_singleton in Hp as [= -> ->]. auto.
    + by apply elem_of_nil in Hp.
  - intros (Ha & Hb & Hne & Ho). exists vs1. split; [|done].
    apply list_elem_of_bind. exists vs2. split; [|done].
    destruct (overlap_hit_cases vs1 vs2) as [(E & _)|(_ & N)].
    + rewrite E. apply list_elem_of_here.
    + destruct N. auto.
Qed.

(** No ordered pair is appended twice. *)
Lemma overlap_loops_NoDup order :
  NoDup order -> NoDup (overlap_loops fingerprint_dict h order).
Proof.
  intros ND. rewrite overlap_loops_bind.
  assert (Hfst : forall a b p, p ∈ overlap_hit fingerprint_dict h a b -> p = (a, b)).
  { intros a b p Hp.
    destruct (overlap_hit_cases a b) as [(E & _)|(E & _)]; rewrite E in Hp.
    - by apply list_elem_of_singleton in Hp.
    - by apply elem_of_nil in Hp. }
  apply NoDup_bind; [| |exact ND].
  - intros a1 a2 p _ _ (b1 & H1 & _)%list_elem_of_bind (b2 & H2 & _)%list_elem_of_bind.
    apply Hfst in H1, H2. congruence.
  - intros a _. apply NoDup_bind; [| |exact ND].
    + intros b1 b2 p _ _ H1 H2. apply Hfst in H1, H2. congruence.
    + intros b _.
      destruct (overlap_hit_cases a b) as [(E & _)|(E & _)]; rewrite E.
      * apply NoDup_singleton.
      * apply NoDup_nil_2.
Qed.

(** The relation collected is symmetric: a pair comes with its mirror. *)
Lemma overlap_sym vs1 vs2 :
  overlap fingerprint_dict h vs1 vs2 -> overlap fingerprint_dict h vs2 vs1.
Proof.
  intros (fp1 & fp2 & E1 & E2 & Hi). exists fp2, fp1.
  split; [done|]. split; [done|]. by rewrite (comm_L (∩)).
Qed.

End Overlaps.

(** ** The stages around the external calls *)

Lemma lift_inv {A} (r : Outcome A) w o w' :
  lift r w = (o, w') -> o = r /\ w' = w.
Proof. unfold lift. intros H. inversion H. auto. Qed.

Lemma str_add_inv s1 s2 w o w' :
  str_add s1 s2 w = (o, w') -> w' = w.
Proof.
  unfold str_add. destruct s2; intros H.
  - by apply ret_inv in H as [_ ->].
  - by apply raise_inv in H as [_ ->].
Qed.

Lemma profile_item_inv d key w o w' :
  profile_item d key w = (o, w') -> w' = w.
Proof.
  unfold profile_item. destruct (d !! key); intros H.
  - by apply ret_inv in H as [_ ->].
  - by apply raise_inv in H as [_ ->].
Qed.

Lemma log_write_quiet path l w o w' :
  emit (LogWrite path l) w = (o, w') -> o = Return tt /\ quiet w w'.
Proof. apply emit_quiet. reflexivity. Qed.

Lemma log_profile_quiet profile_dict n path w o w' :
  log_profile profile_dict n path w = (o, w') -> quiet w w'.
Proof.
  unfold log_profile. intros H.
  unbind H as ? w1 H1; [|by apply log_write_quiet in H as [? _]].
  apply log_write_quiet in H1 as [_ Q1].
  unbind H as ? w2 H2; [|by apply log_write_quiet in H as [? _]].
  apply log_write_quiet in H2 as [_ Q2].
  assert (Q : quiet w w2) by (eapply quiet_trans; eauto).
  unbind H as t1 w3 H3; [|by apply profile_item_inv in H as ->].
  apply profile_item_inv in H3 as ->.
  unbind H as ? w4 H4; [|by apply log_write_quiet in H as [? _]].
  apply log_write_quiet in H4 as [_ Q4].
  unbind H as t2 w5 H5; [|apply profile_item_inv in H as ->; eapply quiet_trans; eauto].
  apply profile_item_inv in H5 as ->.
  apply log_write_quiet in H as [_ Q5].
  eapply quiet_trans; [exact Q|]. eapply quiet_trans; eauto.
Qed.

Lemma log_optimize_quiet path w o w' :
  log_optimize path w = (o, w') -> o = Return tt /\ quiet w w'.
Proof.
  unfold log_optimize. intros H.
  unbind H as ? w1 H1; [|by apply log_write_quiet in H as [? _]].
  apply log_write_quiet in H1 as [_ Q1].
  unbind H as ? w2 H2; [|by apply log_write_quiet in H as [? _]].
  apply log_write_quiet in H2 as [_ Q2].
  unbind H as ? w3 H3; [|by apply log_write_quiet in H as [? _]].
  apply log_write_quiet in H3 as [_ Q3].
  apply log_write_quiet in H as [-> Q4]. split; [reflexivity|].
  eapply quiet_trans; [exact Q1|]. eapply quiet_trans; [exact Q2|].
  eapply quiet_trans; eauto.
Qed.

Lemma log_migrate_quiet path w o w' :
  log_migrate path w = (o, w') -> o = Return tt /\ quiet w w'.
Proof. apply log_write_quiet. Qed.

Lemma print_sized_quiet r w o w' :
  print_sized r w = (o, w') -> quiet w w'.
Proof.
  unfold print_sized. intros H.
  unbind H as h w1 Hg; [|by apply get_heap_inv in H as [? _]].
  apply get_heap_inv in Hg as [_ ->].
  by apply emit_quiet in H as [_ Q].
Qed.

Lemma print_cell_quiet ce w o w' :
  print_cell ce w = (o, w') -> quiet w w'.
Proof. unfold print_cell. intros H. by apply emit_quiet in H as [_ Q]. Qed.

Lemma print_sized_returns r w : exists w', print_sized r w = (Return tt, w').
Proof. unfold print_sized. eexists. reflexivity. Qed.

Lemma for_each_returns {A} (body : A -> M unit) xs :
  (forall x w, exists w', body x w = (Return tt, w')) ->
  forall w, exists w', for_each xs body w = (Return tt, w').
Proof.
  intros Hb. induction xs as [|x xs IH]; intros w; simpl.
  - eexists. reflexivity.
  - destruct (Hb x w) as [w1 E]. destruct (IH w1) as [w2 E2].
    exists w2. by rewrite (bind_return _ _ _ _ _ E).
Qed.

Section Run.

Variable profile_variable_size : PyObj -> N.
Variable select_vss :
  Selector -> Heap -> option string -> option string -> option string ->
  Outcome (gset vsref * list ComputeEdge) * Selector.
Variable migrate : MigrateArgs -> Heap -> Outcome PyObj.
Variable open_log : string -> Outcome unit.
Variable set_iter : gset vsref -> list vsref.

Variable shell : Shell.
Variable fingerprint_dict : gmap string Fingerprint.
Variable udfs : gset string.
Variable filename : string.
Variable profile_dict : gmap string N.
Variables write_log_location notebook_name optimizer_name : option string.
Variable elastic_notebook : option ElasticNotebook.

Lemma with_log_quiet body w o w' :
  (forall path w o w', body path w = (o, w') -> quiet w w') ->
  with_log open_log write_log_location notebook_name optimizer_name body w = (o, w') ->
  quiet w w' /\
  ((exists e, o = Raise e) -> truthy write_log_location = true).
Proof.
  intros Hb. unfold with_log.
  destruct (truthy write_log_location); intros H.
  2:{ apply ret_inv in H as [-> ->]. split; [apply quiet_refl|].
      intros [e ?]. done. }
  split; [|done].
  unbind H as path w1 Hp.
  2:{ unfold log_path in H.
      unbind H as p1 w1 H1; [|apply str_add_inv in H as ->; apply quiet_refl].
      apply str_add_inv in H1 as ->.
      unbind H as p2 w2 H2; [|apply str_add_inv in H as ->; apply quiet_refl].
      apply str_add_inv in H2 as ->.
      apply ret_inv in H as [_ ->]. apply quiet_refl. }
  assert (w1 = w) as ->.
  { unfold log_path in Hp.
    unbind Hp as p1 w2 H1.
    apply str_add_inv in H1 as ->.
    unbind Hp as p2 w3 H2.
    apply str_add_inv in H2 as ->.
    by apply ret_inv in Hp as [_ ->]. }
  unbind H as ? w2 Ho; [|apply lift_inv in H as [_ ->]; apply quiet_refl].
  apply lift_inv in Ho as [_ ->]. eapply Hb; eauto.
Qed.

Lemma report_stage_quiet rec ces w o w' :
  report_stage set_iter rec ces w = (o, w') -> o = Return tt /\ quiet w w'.
Proof.
  unfold report_stage. intros H.
  unbind H as ? w1 H1; [|by apply print_quiet in H as [? _]].
  apply print_quiet in H1 as [_ Q1].
  unbind H as ? w2 H2; [|by apply print_quiet in H as [? _]].
  apply print_quiet in H2 as [_ Q2].
  unbind H as ? w3 H3.
  2:{ destruct (for_each_returns print_sized (set_iter rec) print_sized_returns w2)
        as [w3 E]. rewrite E in H. done. }
  apply (for_each_quiet print_sized) in H3 as Q3; [|apply print_sized_quiet].
  unbind H as h w4 Hg; [|by apply get_heap_inv in H as [? _]].
  apply get_heap_inv in Hg as [_ ->].
  unbind H as ? w5 H5; [|by apply emit_quiet in H as [? _]].
  apply emit_quiet in H5 as [_ Q5]; [|done].
  unbind H as ? w6 H6; [|by apply print_quiet in H as [? _]].
  apply print_quiet in H6 as [_ Q6].
  unbind H as ? w7 H7; [|by apply print_quiet in H as [? _]].
  apply print_quiet in H7 as [_ Q7].
  unbind H as ? w8 H8.
  2:{ assert (Hr : forall x w, exists w', print_cell x w = (Return tt, w'))
        by (intros; eexists; reflexivity).
      destruct (for_each_returns print_cell ces Hr w7) as [w8 E].
      rewrite E in H. done. }
  apply (for_each_quiet print_cell) in H8 as Q8; [|apply print_cell_quiet].
  apply emit_quiet in H as [-> Q9]; [|done].
  split; [reflexivity|].
  repeat (eapply quiet_trans; [eassumption|]). apply quiet_refl.
Qed.

Lemma update_stage_quiet mig rec w o w' :
  update_stage elastic_notebook mig rec w = (o, w') ->
  quiet w w' /\
  (forall e, o = Raise e ->
     exists nb, elastic_notebook = Some nb /\
                update_migration_lists nb mig rec = Raise e).
Proof.
  unfold update_stage. destruct elastic_notebook as [nb|]; intros H.
  - unbind H as ? w1 H1; [|by apply emit_quiet in H as [? _]].
    apply emit_quiet in H1 as [_ Q1]; [|done].
    apply lift_inv in H as [-> ->]. split; [exact Q1|].
    intros e E. eauto.
  - apply ret_inv in H as [-> ->]. split; [apply quiet_refl|]. done.
Qed.

Lemma select_stage_spec graph active overlapping w o w' :
  select_stage select_vss graph active overlapping
    write_log_location notebook_name optimizer_name w = (o, w') ->
  let s := primed graph active overlapping (selector w) in
  o = fst (select_vss s (heap w) write_log_location notebook_name optimizer_name) /\
  selector w' = snd (select_vss s (heap w) write_log_location notebook_name optimizer_name) /\
  heap w' = heap w /\ session_graph w' = session_graph w /\
  out w' = (out w ++ [CallSelect s])%list.
Proof.
  unfold select_stage, primed. intros H.
  repeat match type of H with
  | (get_selector ≫= _) _ = _ =>
      rewrite (bind_return get_selector _ _ _ _ eq_refl) in H
  | (get_heap ≫= _) _ = _ =>
      rewrite (bind_return get_heap _ _ _ _ eq_refl) in H
  | (set_selector _ ≫= _) _ = _ =>
      rewrite (bind_return (set_selector _) _ _ _ _ eq_refl) in H
  | (emit _ ≫= _) _ = _ =>
      rewrite (bind_return (emit _) _ _ _ _ eq_refl) in H
  end.
  simpl in H.
  destruct (select_vss _ _ _ _ _) as [res s'] eqn:E in H.
  rewrite (bind_return (set_selector _) _ _ _ _ eq_refl) in H.
  apply lift_inv in H as [-> ->]. simpl.
  simpl in E. rewrite E. simpl. auto.
Qed.

Lemma migrate_stage_spec a w o w' :
  migrate_stage migrate a w = (o, w') ->
  heap w' = heap w /\ session_graph w' = session_graph w /\
  selector w' = selector w /\
  out w' = (out w ++ [CallMigrate a])%list /\
  match migrate a (heap w) with
  | Return _ => o = Return tt
  | Raise e => o = Raise e
  end.
Proof.
  unfold migrate_stage. intros H.
  rewrite (bind_return get_heap _ _ _ _ eq_refl) in H.
  rewrite (bind_return (emit _) _ _ _ _ eq_refl) in H.
  unfold mbind, M_bind, lift in H. simpl in H.
  destruct (migrate a (heap w)); inversion H; subst; simpl; auto.
Qed.

Lemma overlap_stage_inv active w o w' :
  overlap_stage set_iter fingerprint_dict active w = (o, w') ->
  o = Return (overlap_loops fingerprint_dict (heap w) (set_iter active)) /\ w' = w.
Proof.
  unfold overlap_stage. intros H.
  rewrite (bind_return get_heap _ _ _ _ eq_refl) in H.
  by apply ret_inv in H.
Qed.

Lemma silent_calls w w' :
  silent w w' ->
  select_calls (out w') = select_calls (out w) /\
  migrate_calls (out w') = migrate_calls (out w).
Proof.
  intros (_ & _ & evs & -> & A & B).
  unfold select_calls, migrate_calls in *.
  rewrite !omap_app, A, B, !app_nil_r. auto.
Qed.

Lemma profile_stage_silent active w o w' :
  profile_stage profile_variable_size set_iter shell fingerprint_dict active w
    = (o, w') ->
  silent w w' /\ sizes_only (heap w) (heap w').
Proof.
  unfold profile_stage. intros H.
  apply profile_loop_spec in H as (S & Z & _). auto.
Qed.

(** The shape of every run of [checkpoint]: which stage it ended in, and
    what was handed to the selector and to the writer on the way. *)
Lemma checkpoint_anatomy w o w' :
  checkpoint profile_variable_size select_vss migrate open_log set_iter
    shell fingerprint_dict udfs filename profile_dict
    write_log_location notebook_name optimizer_name elastic_notebook w = (o, w') ->
  exists o1 w1, active_stage (session_graph w) w = (o1, w1) /\
  match o1 with
  | Raise e => o = Raise e /\ w' = w1
  | Return A =>
    exists o2 w2,
      profile_stage profile_variable_size set_iter shell fingerprint_dict A w1
        = (o2, w2) /\
    match o2 with
    | Raise e => o = Raise e /\ w' = w2
    | Return _ =>
        ended_after_profiling select_vss migrate set_iter shell fingerprint_dict
          udfs filename write_log_location notebook_name optimizer_name
          elastic_notebook w w2 A o w'
    end
  end.
Proof.
  unfold checkpoint. intros H.
  rewrite (bind_return get_graph _ _ _ _ eq_refl) in H.
  (* the active set *)
  destruct (active_stage (session_graph w) w) as [o1 w1] eqn:E1.
  exists o1, w1. split; [reflexivity|].
  pose proof (active_stage_spec _ _ _ _ E1) as [Q1 _].
  destruct (silent_calls _ _ (quiet_silent _ _ Q1)) as [Cs1 Cm1].
  destruct Q1 as (Hh1 & Hg1 & Hs1 & _).
  destruct o1 as [A|e1].
  2:{ rewrite (bind_raise _ _ _ _ _ E1) in H. by inversion H. }
  rewrite (bind_return _ _ _ _ _ E1) in H.
  (* profiling *)
  destruct (profile_stage profile_variable_size set_iter shell fingerprint_dict A w1)
    as [o2 w2] eqn:E2.
  exists o2, w2. split; [reflexivity|].
  pose proof (profile_stage_silent _ _ _ _ E2) as [S2 _].
  destruct (silent_calls _ _ S2) as [Cs2 Cm2].
  destruct S2 as (Hg2 & Hs2 & _).
  destruct o2 as [[]|e2].
  2:{ rewrite (bind_raise _ _ _ _ _ E2) in H. by inversion H. }
  rewrite (bind_return _ _ _ _ _ E2) in H.
  unfold ended_after_profiling.
  (* overlaps, then the first block of diagnostics *)
  rewrite (bind_return (overlap_stage _ _ _) _ _ _ _ eq_refl) in H.
  set (ov := overlap_loops fingerprint_dict (heap w2) (set_iter A)) in *.
  set (s := primed (session_graph w) A ov (selector w)).
  set (r := select_vss s (heap w2) write_log_location notebook_name optimizer_name).
  cbv zeta.
  destruct (with_log open_log write_log_location notebook_name optimizer_name
              (log_profile profile_dict (length ov)) w2) as [o4 w4] eqn:E4.
  pose proof (with_log_quiet _ _ _ _ (log_profile_quiet _ _) E4) as [Q4 T4].
  pose proof (quiet_grows _ _ Q4) as G4.
  destruct (silent_calls _ _ (quiet_silent _ _ Q4)) as [Cs4 Cm4].
  destruct Q4 as (Hh4 & Hg4 & Hs4 & _).
  destruct o4 as [[]|e4].
  2:{ rewrite (bind_raise _ _ _ _ _ E4) in H. inversion H; subst.
      split; [congruence|]. split; [done|]. split; [chain_grows|]. left.
      split; [eauto|]. split; [eauto|]. repeat split; congruence. }
  rewrite (bind_return _ _ _ _ _ E4) in H. clear T4.
  (* selection *)
  destruct (select_stage select_vss (session_graph w) A ov write_log_location
              notebook_name optimizer_name w4) as [o5 w5] eqn:E5.
  pose proof (select_stage_spec _ _ _ _ _ _ E5) as (Ho5 & Hs5 & Hh5 & Hg5 & Ho).
  cbv zeta in Ho5, Hs5, Ho.
  assert (Es : primed (session_graph w) A ov (selector w4) = s)
    by (unfold s; congruence).
  rewrite Es, Hh4 in Ho5, Hs5. rewrite Es in Ho. fold r in Ho5, Hs5.
  assert (G5 : grows w4 w5) by (eexists; exact Ho).
  assert (Cs5 : select_calls (out w5) = (select_calls (out w) ++ [s])%list).
  { rewrite Ho. unfold select_calls at 1. rewrite omap_app. simpl.
    fold (select_calls (out w4)). congruence. }
  assert (Cm5 : migrate_calls (out w5) = migrate_calls (out w)).
  { rewrite Ho. unfold migrate_calls at 1. rewrite omap_app. simpl.
    fold (migrate_calls (out w4)). rewrite app_nil_r. congruence. }
  rewrite <- Ho5. clear Ho5.
  destruct o5 as [[mig ces]|e5].
  2:{ rewrite (bind_raise _ _ _ _ _ E5) in H. inversion H; subst.
      split; [congruence|]. split; [congruence|]. split; [chain_grows|].
      right. auto. }
  rewrite (bind_return _ _ _ _ _ E5) in H.
  set (a := mkMigrateArgs (session_graph w) shell mig (A ∖ mig) ces udfs
              (recomputation_ces r.2) (overlapping_vss r.2) filename).
  (* the report *)
  destruct (print "---------------------------" w5) as [o6 w6] eqn:E6.
  apply print_quiet in E6 as E6'. destruct E6' as [-> Q6].
  rewrite (bind_return _ _ _ _ _ E6) in H.
  destruct (print "variables to migrate:" w6) as [o7 w7] eqn:E7.
  apply print_quiet in E7 as E7'. destruct E7' as [-> Q7].
  rewrite (bind_return _ _ _ _ _ E7) in H.
  destruct (for_each_returns print_sized (set_iter mig) print_sized_returns w7)
    as [w8 E8].
  apply (for_each_quiet print_sized) in E8 as Q8; [|apply print_sized_quiet].
  rewrite (bind_return _ _ _ _ _ E8) in H.
  destruct (report_stage set_iter (A ∖ mig) ces w8) as [o9 w9] eqn:E9.
  apply report_stage_quiet in E9 as E9'. destruct E9' as [-> Q9].
  rewrite (bind_return _ _ _ _ _ E9) in H.
  assert (Q59 : quiet w5 w9).
  { eapply quiet_trans; [exact Q6|]. eapply quiet_trans; [exact Q7|].
    eapply quiet_trans; eauto. }
  pose proof (quiet_grows _ _ Q59) as G9.
  clear Q6 Q7 Q8 Q9 E6 E7 E8 E9.
  (* the second block of diagnostics and the notebook callback *)
  destruct (with_log open_log write_log_location notebook_name optimizer_name
              log_optimize w9) as [o10 w10] eqn:E10.
  assert (Hlo : forall path w o w', log_optimize path w = (o, w') -> quiet w w')
    by (intros ???? Hx; by apply log_optimize_quiet in Hx as [_ ?]).
  pose proof (with_log_quiet _ _ _ _ Hlo E10) as [Q10 T10].
  pose proof (quiet_grows _ _ Q10) as G10.
  pose proof (quiet_trans _ _ _ Q59 Q10) as Q5_10.
  destruct (silent_calls _ _ (quiet_silent _ _ Q5_10)) as [Cs10 Cm10].
  destruct Q5_10 as (Hh10 & Hg10 & Hs10 & _).
  destruct o10 as [[]|e10].
  2:{ rewrite (bind_raise _ _ _ _ _ E10) in H. inversion H; subst.
      split; [congruence|]. split; [congruence|]. split; [chain_grows|]. right.
      split; [congruence|]. split; [congruence|]. left.
      split; [|congruence]. exists e10. split; [done|]. left. eauto. }
  rewrite (bind_return _ _ _ _ _ E10) in H. clear T10.
  destruct (update_stage elastic_notebook mig (A ∖ mig) w10) as [o11 w11] eqn:E11.
  pose proof (update_stage_quiet _ _ _ _ _ E11) as [Q11 T11].
  pose proof (quiet_grows _ _ Q11) as G11.
  destruct (silent_calls _ _ (quiet_silent _ _ Q11)) as [Cs11 Cm11].
  destruct Q11 as (Hh11 & Hg11 & Hs11 & _).
  destruct o11 as [[]|e11].
  2:{ rewrite (bind_raise _ _ _ _ _ E11) in H. inversion H; subst.
      split; [congruence|]. split; [congruence|]. split; [chain_grows|]. right.
      split; [congruence|]. split; [congruence|]. left.
      split; [|congruence]. exists e11. split; [done|]. right. eauto. }
  rewrite (bind_return _ _ _ _ _ E11) in H. clear T11.
  (* the writer *)
  rewrite (bind_return get_selector _ _ _ _ eq_refl) in H.
  assert (Esel : selector w11 = r.2) by congruence.
  rewrite Esel in H. fold a in H.
  destruct (migrate_stage migrate a w11) as [o12 w12] eqn:E12.
  pose proof (migrate_stage_spec _ _ _ _ E12) as (Hh12 & Hg12 & Hs12 & Ho12 & Hm).
  assert (G12 : grows w11 w12) by (eexists; exact Ho12).
  assert (Cs12 : select_calls (out w12) = (select_calls (out w) ++ [s])%list).
  { rewrite Ho12. unfold select_calls at 1. rewrite omap_app. simpl.
    fold (select_calls (out w11)). rewrite app_nil_r. congruence. }
  assert (Cm12 : migrate_calls (out w12) = (migrate_calls (out w) ++ [a])%list).
  { rewrite Ho12. unfold migrate_calls at 1. rewrite omap_app. simpl.
    fold (migrate_calls (out w11)). congruence. }
  assert (Eh : heap w11 = heap w2) by congruence.
  rewrite Eh in Hm.
  destruct o12 as [[]|e12].
  2:{ rewrite (bind_raise _ _ _ _ _ E12) in H. inversion H; subst.
      split; [congruence|]. split; [congruence|]. split; [chain_grows|]. right.
      split; [congruence|]. split; [congruence|]. right.
      split; [congruence|].
      destruct (migrate a (heap w2)); [discriminate Hm | by inversion Hm]. }
  rewrite (bind_return _ _ _ _ _ E12) in H.
  (* the last block of diagnostics *)
  destruct (with_log open_log write_log_location notebook_name optimizer_name
              log_migrate w12) as [o13 w13] eqn:E13.
  assert (Hlm : forall path w o w', log_migrate path w = (o, w') -> quiet w w')
    by (intros ???? Hx; by apply log_migrate_quiet in Hx as [_ ?]).
  pose proof (with_log_quiet _ _ _ _ Hlm E13) as [Q13 T13].
  pose proof (quiet_grows _ _ Q13) as G13.
  destruct (silent_calls _ _ (quiet_silent _ _ Q13)) as [Cs13 Cm13].
  destruct Q13 as (Hh13 & Hg13 & Hs13 & _).
  assert (Hret : exists v, migrate a (heap w2) = Return v).
  { destruct (migrate a (heap w2)); [eauto | discriminate Hm]. }
  destruct Hret as [v Hret].
  destruct o13 as [[]|e13].
  - rewrite (bind_return _ _ _ _ _ E13) in H. apply ret_inv in H as [-> ->].
    split; [congruence|]. split; [congruence|]. split; [chain_grows|]. right.
    split; [congruence|]. split; [congruence|]. right.
    split; [congruence|]. rewrite Hret. by left.
  - rewrite (bind_raise _ _ _ _ _ E13) in H. inversion H; subst.
    split; [congruence|]. split; [congruence|]. split; [chain_grows|]. right.
    split; [congruence|]. split; [congruence|]. right.
    split; [congruence|]. rewrite Hret. right. split; [eauto|]. eauto.
Qed.

(** What a run that reached the selector had done before. *)
Lemma selector_called w o w' s :
  out w = [] ->
  checkpoint profile_variable_size select_vss migrate open_log set_iter
    shell fingerprint_dict udfs filename profile_dict
    write_log_location notebook_name optimizer_name elastic_notebook w = (o, w') ->
  s ∈ select_calls (out w') ->
  exists A w1 w2,
    active_stage (session_graph w) w = (Return A, w1) /\
    profile_stage profile_variable_size set_iter shell fingerprint_dict A w1
      = (Return tt, w2) /\
    ended_after_profiling select_vss migrate set_iter shell fingerprint_dict
      udfs filename write_log_location notebook_name optimizer_name
      elastic_notebook w w2 A o w' /\
    select_calls (out w') = [s] /\
    s = primed (session_graph w) A
          (overlap_loops fingerprint_dict (heap w2) (set_iter A)) (selector w).
Proof.
  intros Hout H Hs.
  destruct (checkpoint_anatomy _ _ _ H) as (o1 & w1 & E1 & H1).
  pose proof (active_stage_spec _ _ _ _ E1) as [Q1 _].
  destruct (silent_calls _ _ (quiet_silent _ _ Q1)) as [Cs1 _].
  rewrite Hout in Cs1. simpl in Cs1.
  destruct o1 as [A|e].
  2:{ destruct H1 as [_ ->]. rewrite Cs1 in Hs. by apply elem_of_nil in Hs. }
  destruct H1 as (o2 & w2 & E2 & H2).
  pose proof (profile_stage_silent _ _ _ _ E2) as [S2 _].
  destruct (silent_calls _ _ S2) as [Cs2 _]. rewrite Cs1 in Cs2.
  destruct o2 as [[]|e].
  2:{ destruct H2 as [_ ->]. rewrite Cs2 in Hs. by apply elem_of_nil in Hs. }
  exists A, w1, w2. split; [done|]. split; [done|]. split; [done|].
  destruct H2 as (_ & _ & _ & [(_ & _ & _ & Cs & _)|(Cs & _)]).
  - rewrite Cs, Hout in Hs. by apply elem_of_nil in Hs.
  - rewrite Cs, Hout in Hs. simpl in Hs.
    apply list_elem_of_singleton in Hs as ->.
    rewrite Cs, Hout. done.
Qed.

(** What a run that reached the writer had done before. *)
Lemma writer_called w o w' a :
  out w = [] ->
  checkpoint profile_variable_size select_vss migrate open_log set_iter
    shell fingerprint_dict udfs filename profile_dict
    write_log_location notebook_name optimizer_name elastic_notebook w = (o, w') ->
  a ∈ migrate_calls (out w') ->
  exists A w1 w2 s ces,
    active_stage (session_graph w) w = (Return A, w1) /\
    profile_stage profile_variable_size set_iter shell fingerprint_dict A w1
      = (Return tt, w2) /\
    heap w' = heap w2 /\
    s = primed (session_graph w) A
          (overlap_loops fingerprint_dict (heap w2) (set_iter A)) (selector w) /\
    select_calls (out w') = [s] /\
    select_vss s (heap w2) write_log_location notebook_name optimizer_name
      = (Return (m_vss_to_migrate a, ces), selector w') /\
    a = mkMigrateArgs (session_graph w) shell (m_vss_to_migrate a)
          (A ∖ m_vss_to_migrate a) ces udfs
          (recomputation_ces (selector w')) (overlapping_vss (selector w'))
          filename /\
    migrate_calls (out w') = [a] /\
    match migrate a (heap w2) with
    | Raise e => o = Raise e
    | Return _ =>
        o = Return true \/
        ((exists e, o = Raise e) /\ truthy write_log_location = true)
    end.
Proof.
  intros Hout H Ha.
  destruct (checkpoint_anatomy _ _ _ H) as (o1 & w1 & E1 & H1).
  pose proof (active_stage_spec _ _ _ _ E1) as [Q1 _].
  destruct (silent_calls _ _ (quiet_silent _ _ Q1)) as [_ Cm1].
  rewrite Hout in Cm1. simpl in Cm1.
  destruct o1 as [A|e].
  2:{ destruct H1 as [_ ->]. rewrite Cm1 in Ha. by apply elem_of_nil in Ha. }
  destruct H1 as (o2 & w2 & E2 & H2).
  pose proof (profile_stage_silent _ _ _ _ E2) as [S2 _].
  destruct (silent_calls _ _ S2) as [_ Cm2]. rewrite Cm1 in Cm2.
  destruct o2 as [[]|e].
  2:{ destruct H2 as [_ ->]. rewrite Cm2 in Ha. by apply elem_of_nil in Ha. }
  destruct H2 as (_ & Hh & _ & [(_ & _ & _ & _ & Cm)|(Cs & Hsel & Hr)]).
  { rewrite Cm, Hout in Ha. by apply elem_of_nil in Ha. }
  rewrite Hout in Cs. simpl in Cs.
  set (s := primed (session_graph w) A
              (overlap_loops fingerprint_dict (heap w2) (set_iter A))
              (selector w)) in *.
  destruct (select_vss s (heap w2) write_log_location notebook_name optimizer_name)
    as [res s'] eqn:Er.
  simpl in Hsel, Hr. subst s'.
  destruct res as [[mig ces]|e].
  2:{ destruct Hr as [_ Cm]. rewrite Cm, Hout in Ha. by apply elem_of_nil in Ha. }
  destruct Hr as [[_ Cm]|[Cm Hm]].
  { rewrite Cm, Hout in Ha. by apply elem_of_nil in Ha. }
  rewrite Hout in Cm. simpl in Cm. rewrite Cm in Ha.
  apply list_elem_of_singleton in Ha. subst a. simpl.
  exists A, w1, w2, s, ces. rewrite Cm. auto 10.
Qed.

(** ** The claims about calls to the collaborators *)

(** C1. Partition completeness: whenever the set the selector returned lies
    within the active set, the two sets handed to the writer cover the active
    set and are disjoint; the recompute set is the set difference. *)
Theorem partition_complete h g sel o w' A w1 a :
  checkpoint profile_variable_size select_vss migrate open_log set_iter
    shell fingerprint_dict udfs filename profile_dict
    write_log_location notebook_name optimizer_name elastic_notebook
    (fresh_world h g sel) = (o, w') ->
  active_stage g (fresh_world h g sel) = (Return A, w1) ->
  a ∈ migrate_calls (out w') ->
  m_vss_to_migrate a ⊆ A ->
  m_vss_to_migrate a ∪ m_vss_to_recompute a = A /\
  m_vss_to_migrate a ∩ m_vss_to_recompute a = ∅ /\
  m_vss_to_recompute a = A ∖ m_vss_to_migrate a /\
  exists s ces,
    select_calls (out w') = [s] /\ active_vss s = A /\
    fst (select_vss s (heap w') write_log_location notebook_name optimizer_name)
      = Return (m_vss_to_migrate a, ces).
Proof.
  intros H E1 Ha Hsub.
  destruct (writer_called (fresh_world h g sel) _ _ _ eq_refl H Ha)
    as (A' & w1' & w2 & s & ces & E1' & _ & Hh & Hs & Cs & Er & Ea & _).
  simpl in E1'. rewrite E1 in E1'. inversion E1'; subst A' w1'. clear E1'.
  assert (Hrec : m_vss_to_recompute a = A ∖ m_vss_to_migrate a)
    by (rewrite Ea at 1; reflexivity).
  rewrite Hrec. split.
  { symmetry. by apply union_difference_L. }
  split.
  { apply set_eq. intros x. rewrite elem_of_intersection, elem_of_difference.
    split; [tauto|]. intros Hx. by apply elem_of_empty in Hx. }
  split; [reflexivity|].
  exists s, ces. split; [exact Cs|]. split; [by rewrite Hs|].
  rewrite Hh, Er. reflexivity.
Qed.

(** C7. The writer is invoked with the selector's attributes
    [recomputation_ces] and [overlapping_vss] as they are after [select_vss],
    with the partition the selector produced and with the target file name;
    it is invoked at most once, and exactly once in a call that returns. *)
Theorem writer_receives_selector_state h g sel o w' :
  checkpoint profile_variable_size select_vss migrate open_log set_iter
    shell fingerprint_dict udfs filename profile_dict
    write_log_location notebook_name optimizer_name elastic_notebook
    (fresh_world h g sel) = (o, w') ->
  (forall a, a ∈ migrate_calls (out w') ->
     migrate_calls (out w') = [a] /\
     m_recomputation_ces a = recomputation_ces (selector w') /\
     m_overlapping_vss a = overlapping_vss (selector w') /\
     m_filename a = filename /\
     m_graph a = g /\ m_shell a = shell /\ m_udfs a = udfs /\
     exists s,
       select_calls (out w') = [s] /\
       select_vss s (heap w') write_log_location notebook_name optimizer_name
         = (Return (m_vss_to_migrate a, m_ces_to_recompute a), selector w') /\
       m_vss_to_recompute a = active_vss s ∖ m_vss_to_migrate a) /\
  (forall b, o = Return b -> exists a, migrate_calls (out w') = [a]).
Proof.
  intros H. split.
  - intros a Ha.
    destruct (writer_called (fresh_world h g sel) _ _ _ eq_refl H Ha)
      as (A & w1 & w2 & s & ces & _ & _ & Hh & Hs & Cs & Er & Ea & Cm & _).
    split; [exact Cm|].
    rewrite Ea at 1 2 3 4 5 6. simpl. do 6 (split; [reflexivity|]).
    exists s. split; [exact Cs|].
    rewrite Ea at 2 3. simpl. rewrite Hh. split; [exact Er|].
    by rewrite Hs.
  - intros b ->.
    destruct (checkpoint_anatomy _ _ _ H) as (o1 & w1 & E1 & H1).
    destruct o1 as [A|e]; [|by destruct H1].
    destruct H1 as (o2 & w2 & E2 & H2).
    destruct o2 as [[]|e]; [|by destruct H2].
    destruct H2 as (_ & _ & _ & [([e ?] & _)|(_ & _ & Hr)]); [done|].
    destruct (select_vss _ _ _ _ _) as [[[mig ces]|e] s'] in Hr; simpl in Hr.
    + destruct Hr as [[(e & ? & _) _]|[Cm _]]; [done|]. eauto.
    + by destruct Hr.
Qed.

(** C5. A failure of the optimizer or of the checkpoint writer reaches the
    caller: the call raises that very exception and does not return success.
    After a failed optimizer the writer is not called. *)
Theorem collaborator_failure_propagates h g sel o w' :
  checkpoint profile_variable_size select_vss migrate open_log set_iter
    shell fingerprint_dict udfs filename profile_dict
    write_log_location notebook_name optimizer_name elastic_notebook
    (fresh_world h g sel) = (o, w') ->
  (forall s e,
     s ∈ select_calls (out w') ->
     fst (select_vss s (heap w') write_log_location notebook_name optimizer_name)
       = Raise e ->
     o = Raise e /\ o ≠ Return true /\ migrate_calls (out w') = []) /\
  (forall a e,
     a ∈ migrate_calls (out w') ->
     migrate a (heap w') = Raise e ->
     o = Raise e /\ o ≠ Return true).
Proof.
  intros H. split.
  - intros s e Hs Hr.
    destruct (selector_called (fresh_world h g sel) _ _ _ eq_refl H Hs)
      as (A & w1 & w2 & _ & _ & (_ & Hh & _ & D) & _ & Es).
    rewrite Hh, Es in Hr.
    destruct D as [(_ & _ & _ & Cs & _)|(_ & _ & D)].
    { simpl in Cs. rewrite Cs in Hs. by apply elem_of_nil in Hs. }
    rewrite Hr in D. destruct D as [-> Cm]. done.
  - intros a e Ha Hm.
    destruct (writer_called (fresh_world h g sel) _ _ _ eq_refl H Ha)
      as (A & w1 & w2 & s & ces & _ & _ & Hh & _ & _ & _ & _ & _ & D).
    rewrite Hh in Hm. rewrite Hm in D. subst o. done.
Qed.

(** Whenever [checkpoint] returns at all, it returns [True]: the status is
    assigned once, before the writer runs, and never updated. *)
Lemma checkpoint_returns_true w b w' :
  checkpoint profile_variable_size select_vss migrate open_log set_iter
    shell fingerprint_dict udfs filename profile_dict
    write_log_location notebook_name optimizer_name elastic_notebook w
    = (Return b, w') ->
  b = true.
Proof.
  intros H.
  destruct (checkpoint_anatomy _ _ _ H) as (o1 & w1 & E1 & H1).
  destruct o1 as [A|e]; [|by destruct H1].
  destruct H1 as (o2 & w2 & E2 & H2).
  destruct o2 as [[]|e]; [|by destruct H2].
  destruct H2 as (_ & _ & _ & [([e ?] & _)|(_ & _ & Hr)]); [done|].
  destruct (select_vss _ _ _ _ _) as [[[mig ces]|e] s'] in Hr; simpl in Hr.
  - destruct Hr as [[(e & ? & _) _]|[_ Hm]]; [done|].
    destruct (migrate _ _) in Hm; [|done].
    destruct Hm as [[= ->]|[[e ?] _]]; done.
  - by destruct Hr.
Qed.

(** ** The claims about the loops over the active set *)

Hypothesis set_iter_perm : forall X, set_iter X ≡ₚ elements X.

Lemma set_iter_elem X r : r ∈ set_iter X <-> r ∈ X.
Proof. by rewrite set_iter_perm, elem_of_elements. Qed.

Lemma set_iter_NoDup X : NoDup (set_iter X).
Proof. rewrite set_iter_perm. apply NoDup_elements. Qed.

Lemma blacklisted_spec attr_str :
  blacklisted attr_str = true <->
  exists m, attr_str = Some m /\
            (str_contains "dataprep.eda" m = true \/ str_contains "bokeh" m = true).
Proof.
  destruct attr_str as [m|]; simpl.
  2:{ split; [done|]. by intros (m & ? & _). }
  rewrite andb_true_iff, orb_true_iff. split.
  - intros [_ Hm]. eauto.
  - intros (m' & [= <-] & Hm). split; [|done].
    destruct m; [|done]. by destruct Hm.
Qed.

(** C2. When every fingerprinted active variable is in the namespace, the
    profiling loop completes, and for every active snapshot whose name is in
    the fingerprint table: its size is infinite exactly when the fingerprint
    marks it unserializable or the module of the live value contains
    "dataprep.eda" or "bokeh"; otherwise its size is the byte count measured
    on the live value. *)
Theorem sizes_after_profiling A w :
  (forall r, r ∈ A ->
     is_Some (fingerprint_dict !! vs_name (heap w r)) ->
     is_Some (user_ns shell !! vs_name (heap w r))) ->
  exists w',
    profile_stage profile_variable_size set_iter shell fingerprint_dict A w
      = (Return tt, w') /\
    forall r fp,
      r ∈ A ->
      fingerprint_dict !! vs_name (heap w r) = Some fp ->
      exists v,
        user_ns shell !! vs_name (heap w r) = Some v /\
        (vs_size (heap w' r) = Inf <->
           is_unserializable (fp_obj fp) = true \/
           exists m, py_module v = Some m /\
                     (str_contains "dataprep.eda" m = true \/
                      str_contains "bokeh" m = true)) /\
        (vs_size (heap w' r) ≠ Inf ->
           vs_size (heap w' r) = Bytes (profile_variable_size v)).
Proof.
  intros Hns.
  destruct (profile_stage profile_variable_size set_iter shell fingerprint_dict A w)
    as [o w'] eqn:E.
  unfold profile_stage in E.
  apply profile_loop_spec in E as E'. destruct E' as (_ & _ & _ & P).
  destruct o as [[]|e].
  2:{ destruct P as (r & Hr & Hfp & Hnone & _).
      apply set_iter_elem in Hr. destruct (Hns r Hr Hfp) as [v Hv]. congruence. }
  exists w'. split; [reflexivity|].
  intros r fp Hr Hfp. apply set_iter_elem in Hr.
  specialize (P r Hr). rewrite Hfp in P. destruct P as (v & Hv & Hsize).
  exists v. split; [exact Hv|]. rewrite Hsize. unfold profiled_size.
  rewrite <- blacklisted_spec.
  destruct (is_unserializable (fp_obj fp)); simpl.
  { split; [|done]. split; auto. }
  destruct (blacklisted (py_module v)); simpl.
  { split; [|done]. split; auto. }
  split; [|done]. split; [done|]. intros [?|?]; done.
Qed.

(** C9. If some active snapshot has a fingerprint but its name is missing
    from the user namespace, the call raises [KeyError] for such a name
    during profiling, before the selector or the writer is reached. *)
Theorem missing_value_raises w o w' A w1 r :
  checkpoint profile_variable_size select_vss migrate open_log set_iter
    shell fingerprint_dict udfs filename profile_dict
    write_log_location notebook_name optimizer_name elastic_notebook w = (o, w') ->
  active_stage (session_graph w) w = (Return A, w1) ->
  r ∈ A ->
  is_Some (fingerprint_dict !! vs_name (heap w r)) ->
  user_ns shell !! vs_name (heap w r) = None ->
  exists k,
    o = Raise (KeyError k) /\
    is_Some (fingerprint_dict !! k) /\ user_ns shell !! k = None /\
    select_calls (out w') = select_calls (out w) /\
    migrate_calls (out w') = migrate_calls (out w).
Proof.
  intros H E1 Hr Hfp Hns.
  destruct (checkpoint_anatomy _ _ _ H) as (o1 & w1' & E1' & H1).
  rewrite E1 in E1'. inversion E1'; subst o1 w1'. clear E1'.
  destruct H1 as (o2 & w2 & E2 & H2).
  pose proof (active_stage_spec _ _ _ _ E1) as [Q1 _].
  destruct (silent_calls _ _ (quiet_silent _ _ Q1)) as [Cs1 Cm1].
  destruct Q1 as [Hh1 _].
  pose proof (profile_stage_silent _ _ _ _ E2) as [S2 _].
  destruct (silent_calls _ _ S2) as [Cs2 Cm2].
  unfold profile_stage in E2. apply profile_loop_spec in E2 as (_ & _ & _ & P).
  rewrite Hh1 in P.
  destruct o2 as [[]|e].
  - apply set_iter_elem in Hr. specialize (P r Hr).
    destruct Hfp as [fp Hfp]. rewrite Hfp in P.
    destruct P as (v & Hv & _). congruence.
  - destruct H2 as [-> ->].
    destruct P as (r' & _ & Hfp' & Hns' & ->).
    eexists. split; [reflexivity|]. split; [exact Hfp'|]. split; [exact Hns'|].
    split; congruence.
Qed.

(** C3, as the code has it.  The overlap stage returns the list of ordered
    pairs of distinct active snapshots whose names are both fingerprinted and
    whose region sets meet.  No ordered pair occurs twice, and every pair
    occurs together with its mirror image: an unordered pair is listed twice,
    once in each direction. *)
Theorem overlapping_ordered_pairs A w :
  let L := overlap_loops fingerprint_dict (heap w) (set_iter A) in
  overlap_stage set_iter fingerprint_dict A w = (Return L, w) /\
  (forall vs1 vs2,
     (vs1, vs2) ∈ L <->
     vs1 ∈ A /\ vs2 ∈ A /\ vs1 ≠ vs2 /\
     overlap fingerprint_dict (heap w) vs1 vs2) /\
  NoDup L /\
  (forall vs1 vs2, (vs1, vs2) ∈ L -> (vs2, vs1) ∈ L /\ (vs2, vs1) ≠ (vs1, vs2)).
Proof.
  intros L.
  assert (Hspec : forall vs1 vs2,
            (vs1, vs2) ∈ L <->
            vs1 ∈ A /\ vs2 ∈ A /\ vs1 ≠ vs2 /\
            overlap fingerprint_dict (heap w) vs1 vs2).
  { intros vs1 vs2. unfold L. by rewrite overlap_loops_elem, !set_iter_elem. }
  split; [reflexivity|]. split; [exact Hspec|]. split.
  { apply overlap_loops_NoDup, set_iter_NoDup. }
  intros vs1 vs2 (H1 & H2 & Hne & Ho)%Hspec. split.
  - apply Hspec. split; [done|]. split; [done|]. split; [done|].
    by apply overlap_sym.
  - intros [= ? ?]. done.
Qed.

(** C10. An active snapshot whose name has no fingerprint keeps the size it
    had before the call, however the call ends, and it is a member of the
    active set the selector is given.  The selector is given that set: it is
    called, once, with the whole active set, in every call that returns and
    in every call whose profiling loop completes with the diagnostics off,
    whatever the selector then does. *)
Theorem unfingerprinted_kept_as_is h g sel o w' A w1 r :
  checkpoint profile_variable_size select_vss migrate open_log set_iter
    shell fingerprint_dict udfs filename profile_dict
    write_log_location notebook_name optimizer_name elastic_notebook
    (fresh_world h g sel) = (o, w') ->
  active_stage g (fresh_world h g sel) = (Return A, w1) ->
  r ∈ A ->
  fingerprint_dict !! vs_name (h r) = None ->
  vs_size (heap w' r) = vs_size (h r) /\
  (forall s, s ∈ select_calls (out w') -> r ∈ active_vss s) /\
  (forall w2,
     profile_stage profile_variable_size set_iter shell fingerprint_dict A w1
       = (Return tt, w2) ->
     truthy write_log_location = false ->
     exists s, select_calls (out w') = [s] /\ active_vss s = A /\
               r ∈ active_vss s /\ vs_size (heap w2 r) = vs_size (h r)) /\
  (forall b, o = Return b ->
     exists s, select_calls (out w') = [s] /\ active_vss s = A /\
               r ∈ active_vss s).
Proof.
  intros H E1 Hr Hfp.
  destruct (checkpoint_anatomy _ _ _ H) as (o1 & w1' & E1' & H1).
  simpl in E1'. rewrite E1 in E1'. inversion E1'; subst o1 w1'. clear E1'.
  destruct H1 as (o2 & w2 & E2 & H2).
  pose proof (active_stage_spec _ _ _ _ E1) as [[Hh1 _] _]. simpl in Hh1.
  pose proof E2 as E2'.
  unfold profile_stage in E2'. apply profile_loop_spec in E2' as (_ & _ & F & _).
  rewrite Hh1 in F. specialize (F r (or_intror Hfp)).
  assert (Hcalled :
            o2 = Return tt ->
              (truthy write_log_location = false \/ exists b, o = Return b) ->
              exists s, select_calls (out w') = [s] /\ active_vss s = A /\
                        r ∈ active_vss s).
  { intros -> Hpast.
    destruct H2 as (_ & _ & _ & [([e He] & Ht & _)|(Cs & _)]).
    - destruct Hpast as [Hoff|[b Hb]]; congruence.
    - simpl in Cs. eexists. split; [exact Cs|]. split; [reflexivity|exact Hr]. }
  split; [|split; [|split]].
  - destruct o2 as [[]|e].
    + destruct H2 as (_ & -> & _). exact F.
    + destruct H2 as [_ ->]. exact F.
  - intros s Hs.
    destruct (selector_called (fresh_world h g sel) _ _ _ eq_refl H Hs)
      as (A' & w1' & w2' & E1' & _ & _ & _ & ->).
    simpl in E1'. rewrite E1 in E1'. inversion E1'; subst A' w1'. exact Hr.
  - intros w2' E2w Hoff. rewrite E2 in E2w. inversion E2w; subst o2 w2'.
    destruct (Hcalled eq_refl (or_introl Hoff)) as (s & Cs & HA & Hin).
    exists s. auto.
  - intros b ->.
    destruct o2 as [[]|e]; [|by destruct H2].
    apply (Hcalled eq_refl). right. eauto.
Qed.

(** C4, as the code has it.  A snapshot whose name has no fingerprint makes
    its iteration of the profiling loop print the warning and nothing else:
    no exception, no write.  In a call that reaches the selector, the warning
    is on the output, the snapshot is in no pair of the overlap list, and it
    is still a member of the active set handed to the selector, which decides
    about it like about any other. *)
Theorem unfingerprinted_skipped_not_excluded h g sel o w' A w1 r :
  checkpoint profile_variable_size select_vss migrate open_log set_iter
    shell fingerprint_dict udfs filename profile_dict
    write_log_location notebook_name optimizer_name elastic_notebook
    (fresh_world h g sel) = (o, w') ->
  active_stage g (fresh_world h g sel) = (Return A, w1) ->
  r ∈ A ->
  fingerprint_dict !! vs_name (h r) = None ->
  (forall w0, heap w0 = h ->
     profile_one profile_variable_size shell fingerprint_dict r w0
     = (Return tt,
        mkWorld (heap w0) (session_graph w0) (selector w0)
                (out w0 ++ [Print (missing_warning (vs_name (h r)))]))) /\
  (forall s, s ∈ select_calls (out w') ->
     Print (missing_warning (vs_name (h r))) ∈ out w' /\
     r ∈ active_vss s /\
     forall p, p ∈ overlapping_vss s -> fst p ≠ r /\ snd p ≠ r).
Proof.
  intros H E1 Hr Hfp. split.
  { intros w0 <-. unfold profile_one.
    rewrite (bind_return get_heap _ _ _ _ eq_refl). by rewrite Hfp. }
  intros s Hs.
  destruct (selector_called (fresh_world h g sel) _ _ _ eq_refl H Hs)
    as (A' & w1' & w2 & E1' & E2 & (_ & _ & G & _) & _ & ->).
  simpl in E1'. rewrite E1 in E1'. inversion E1'; subst A' w1'. clear E1'.
  pose proof (active_stage_spec _ _ _ _ E1) as [[Hh1 _] _]. simpl in Hh1.
  unfold profile_stage in E2. apply profile_loop_spec in E2 as (_ & Z & _ & P).
  rewrite Hh1 in P, Z.
  split.
  { apply set_iter_elem in Hr. specialize (P r Hr). rewrite Hfp in P.
    destruct G as [evs ->]. apply elem_of_app. by left. }
  split; [exact Hr|].
  intros [a b] Hp. simpl in Hp.
  apply overlap_loops_elem in Hp as (_ & _ & _ & fa & fb & Ha & Hb & _).
  destruct (Z a) as (Na & _), (Z b) as (Nb & _). rewrite Na in Ha. rewrite Nb in Hb.
  simpl. split; intros ->; congruence.
Qed.

(** C8. A call leaves the graph as it found it, and in the store it changes
    nothing but sizes: name, version and deleted flag of every snapshot are
    as before.  A size changes only on an active snapshot whose name is in
    the fingerprint table. *)
Theorem graph_left_alone w o w' :
  checkpoint profile_variable_size select_vss migrate open_log set_iter
    shell fingerprint_dict udfs filename profile_dict
    write_log_location notebook_name optimizer_name elastic_notebook w = (o, w') ->
  session_graph w' = session_graph w /\
  sizes_only (heap w) (heap w') /\
  forall r, vs_size (heap w' r) ≠ vs_size (heap w r) ->
    is_Some (fingerprint_dict !! vs_name (heap w r)) /\
    exists n l, (n, l) ∈ variable_snapshots (session_graph w) /\
                last l = Some r /\ vs_deleted (heap w r) = false.
Proof.
  intros H.
  destruct (checkpoint_anatomy _ _ _ H) as (o1 & w1 & E1 & H1).
  pose proof (active_stage_spec _ _ _ _ E1) as [(Hh1 & Hg1 & _) P1].
  destruct o1 as [A|e].
  2:{ destruct H1 as [_ ->]. rewrite Hh1.
      split; [done|]. split; [apply sizes_only_refl|]. done. }
  destruct P1 as [_ P1].
  destruct H1 as (o2 & w2 & E2 & H2).
  pose proof (profile_stage_silent _ _ _ _ E2) as [(Hg2 & _) Z2].
  unfold profile_stage in E2. apply profile_loop_spec in E2 as (_ & _ & F & _).
  rewrite Hh1 in F, Z2.
  assert (Hh : heap w' = heap w2).
  { destruct o2 as [[]|e]; [by destruct H2 as (_ & ? & _)|by destruct H2 as [_ ->]]. }
  assert (Hg : session_graph w' = session_graph w).
  { destruct o2 as [[]|e]; [by destruct H2 as (? & _)|].
    destruct H2 as [_ ->]. congruence. }
  rewrite Hh. split; [exact Hg|]. split; [exact Z2|].
  intros r Hsize.
  destruct (fingerprint_dict !! vs_name (heap w r)) as [fp|] eqn:Efp.
  2:{ destruct Hsize. apply F. by right. }
  split; [eauto|]. apply P1.
  destruct (decide (r ∈ A)) as [Hin|Hout]; [done|].
  destruct Hsize. apply F. left. by rewrite set_iter_elem.
Qed.

End Run.

(** ** The active set *)

(** C6, as the code has it.  On a graph in which every tracked name has at
    least one version, the active stage returns without touching the store,
    and the set it returns holds exactly the snapshots that are the last
    version of a tracked name and are not deleted: a name contributes its
    most recent version or, when that one is deleted, nothing.  The set
    depends on the graph and the store only. *)
Theorem active_is_latest_if_live graph w :
  Forall (fun entry => snd entry ≠ []) (variable_snapshots graph) ->
  exists A w',
    active_stage graph w = (Return A, w') /\
    heap w' = heap w /\
    (forall r, r ∈ A <->
       exists n l, (n, l) ∈ variable_snapshots graph /\
                   last l = Some r /\ vs_deleted (heap w r) = false) /\
    (forall v A2 v',
       heap v = heap w -> active_stage graph v = (Return A2, v') -> A2 = A).
Proof.
  intros Hne.
  destruct (active_stage graph w) as [o w'] eqn:E.
  pose proof (active_stage_spec _ _ _ _ E) as [[Hh _] P].
  destruct o as [A|e].
  2:{ destruct P as [_ [n Hn]].
      rewrite Forall_forall in Hne. by destruct (Hne _ Hn). }
  destruct P as [_ P].
  exists A, w'. split; [reflexivity|]. split; [exact Hh|]. split; [exact P|].
  intros v A2 v' Hv E2.
  apply active_stage_spec in E2 as [_ [_ P2]].
  apply set_eq. intros r. rewrite P, P2, Hv. reflexivity.
Qed.

(** ** Runs on the small session *)

Lemma active_is_latest_if_live_witness :
  Forall (fun entry => snd entry ≠ []) (variable_snapshots Session.graph) /\
  exists A w',
    active_stage Session.graph (Session.start Session.graph) = (Return A, w') /\
    heap w' = Session.store /\
    (forall r, r ∈ A <->
       exists n l, (n, l) ∈ variable_snapshots Session.graph /\
                   last l = Some r /\ vs_deleted (Session.store r) = false) /\
    (forall v A2 v',
       heap v = Session.store ->
       active_stage Session.graph v = (Return A2, v') -> A2 = A).
Proof.
  assert (Hne : Forall (fun entry : string * list vsref => snd entry ≠ [])
                       (variable_snapshots Session.graph))
    by (repeat constructor; discriminate).
  split; [exact Hne|].
  exact (active_is_latest_if_live Session.graph (Session.start Session.graph) Hne).
Defined.

(** C6 as stated fails: [x] has an older version that is not deleted, yet
    the newest version of [x] is deleted and the active set has nothing for
    [x]. *)
Lemma deleted_latest_hides_older_version :
  ~ (forall A w',
       active_stage Session.only_x (Session.start Session.only_x) = (Return A, w') ->
       forall r, r ∈ A <->
         exists n l, (n, l) ∈ variable_snapshots Session.only_x /\
                     most_recent_not_deleted Session.store l = Some r).
Proof.
  intros Hclaim.
  specialize (Hclaim ∅ (snd (active_stage Session.only_x
                                (Session.start Session.only_x)))).
  assert (E : active_stage Session.only_x (Session.start Session.only_x)
              = (Return ∅,
                 snd (active_stage Session.only_x (Session.start Session.only_x))))
    by (vm_compute; reflexivity).
  destruct (Hclaim E 1%positive) as [_ Hback].
  eapply (not_elem_of_empty (C := gset vsref)). apply Hback.
  exists "x", [1; 2]%positive. split; [|reflexivity].
  apply list_elem_of_here.
Qed.

(** C3 as stated fails: [a] and [b] share a storage region, and the list
    handed to the selector holds the pair twice, once in each direction. *)
Lemma overlapping_pair_listed_twice :
  let L := overlap_loops Session.fingerprints Session.store
             (Session.order {[3; 4]}%positive) in
  L = [(3, 4); (4, 3)]%positive /\
  map overlapping_vss
      (select_calls (out (snd (Session.run Session.only_ab Session.shell
                                 Session.migrate_all Session.writer))))
  = [L] /\
  ~ (forall vs1 vs2, (vs1, vs2) ∈ L -> (vs2, vs1) ∉ L).
Proof.
  assert (E : overlap_loops Session.fingerprints Session.store
                (Session.order {[3; 4]}%positive) = [(3, 4); (4, 3)]%positive)
    by (vm_compute; reflexivity).
  cbv zeta. rewrite E. split; [reflexivity|]. split; [vm_compute; reflexivity|].
  intros Hclaim. apply (Hclaim 3 4)%positive.
  - apply list_elem_of_here.
  - apply list_elem_of_further, list_elem_of_here.
Qed.

Lemma overlapping_ordered_pairs_witness :
  (forall X, Session.order X ≡ₚ elements X) /\
  let w := Session.start Session.graph in
  let L := overlap_loops Session.fingerprints (heap w)
             (Session.order {[3; 4; 5; 6; 7]}%positive) in
  (forall vs1 vs2,
     (vs1, vs2) ∈ L <->
     vs1 ∈ ({[3; 4; 5; 6; 7]}%positive : gset vsref) /\
     vs2 ∈ ({[3; 4; 5; 6; 7]}%positive : gset vsref) /\ vs1 ≠ vs2 /\
     overlap Session.fingerprints (heap w) vs1 vs2) /\
  NoDup L.
Proof.
  assert (Hperm : forall X, Session.order X ≡ₚ elements X)
    by (intros X; reflexivity).
  split; [exact Hperm|].
  destruct (overlapping_ordered_pairs Session.order Session.fingerprints Hperm
              {[3; 4; 5; 6; 7]}%positive (Session.start Session.graph))
    as (_ & Hspec & Hnodup & _).
  split; [exact Hspec | exact Hnodup].
Defined.

(** C4 as stated fails: [d] has no fingerprint, and a selector that migrates
    every active snapshot gets [d] in its active set and puts it on the
    migrate side; the writer is called with [d] to migrate, not to
    recompute. *)
Lemma unfingerprinted_can_be_migrated :
  let res := Session.run Session.graph Session.shell
               Session.migrate_all Session.writer in
  fst res = Return true /\
  vs_name (Session.store 6%positive) = "d" /\
  Session.fingerprints !! "d" = None /\
  exists s a,
    select_calls (out (snd res)) = [s] /\
    migrate_calls (out (snd res)) = [a] /\
    6%positive ∈ active_vss s /\
    6%positive ∈ m_vss_to_migrate a /\
    6%positive ∉ m_vss_to_recompute a.
Proof.
  cbv zeta. split; [vm_compute; reflexivity|]. split; [reflexivity|].
  split; [vm_compute; reflexivity|].
  eexists _, _. split; [vm_compute; reflexivity|].
  split; [vm_compute; reflexivity|].
  split; [vm_compute; reflexivity|]. split; [vm_compute; reflexivity|].
  vm_compute. discriminate.
Qed.

Lemma partition_complete_witness :
  let res := Session.run Session.graph Session.shell
               Session.migrate_finite Session.writer in
  let A : gset vsref := {[3; 4; 5; 6; 7]}%positive in
  let a := mkMigrateArgs Session.graph Session.shell
             {[3; 4; 6]}%positive {[5; 7]}%positive [mkCE 0 5] ∅
             (mkObj 91 None) [(3, 4); (4, 3)]%positive "ckpt.pickle" in
  a ∈ migrate_calls (out (snd res)) /\
  m_vss_to_migrate a ⊆ A /\
  m_vss_to_migrate a ∪ m_vss_to_recompute a = A /\
  m_vss_to_migrate a ∩ m_vss_to_recompute a = ∅.
Proof.
  intros res A a.
  assert (H : res = (fst res, snd res)) by apply surjective_pairing.
  assert (E1 : active_stage Session.graph (Session.start Session.graph)
               = (Return A, snd (active_stage Session.graph
                                   (Session.start Session.graph))))
    by (vm_compute; reflexivity).
  assert (Ha : a ∈ migrate_calls (out (snd res)))
    by (vm_compute; apply list_elem_of_here).
  assert (Hsub : m_vss_to_migrate a ⊆ A) by compute_done.
  split; [exact Ha|]. split; [exact Hsub|].
  unfold res, Session.run in H.
  destruct (partition_complete _ _ _ _ _ _ _ _ _ _ _ _ _ _ _ _ _ _ _ _ _ _
              H E1 Ha Hsub) as (Hcover & Hdisjoint & _).
  split; [exact Hcover | exact Hdisjoint].
Defined.

Lemma writer_receives_selector_state_witness :
  let res := Session.run Session.graph Session.shell
               Session.migrate_finite Session.writer in
  res = (fst res, snd res) /\
  exists a,
    migrate_calls (out (snd res)) = [a] /\
    (a ∈ migrate_calls (out (snd res)) ->
     m_recomputation_ces a = recomputation_ces (selector (snd res)) /\
     m_overlapping_vss a = overlapping_vss (selector (snd res)) /\
     m_filename a = "ckpt.pickle").
Proof.
  intros res.
  assert (H : res = (fst res, snd res)) by apply surjective_pairing.
  split; [exact H|].
  unfold res, Session.run in H.
  destruct (writer_receives_selector_state _ _ _ _ _ _ _ _ _ _ _ _ _ _ _ _ _ _ _
              H) as [Hargs Honce].
  assert (Hret : fst res = Return true) by (vm_compute; reflexivity).
  destruct (Honce true Hret) as [a Ea].
  exists a. split; [exact Ea|].
  intros Ha. destruct (Hargs a Ha) as (_ & Hr & Ho & Hf & _). auto.
Defined.

Lemma collaborator_failure_propagates_witness :
  let res := Session.run Session.graph Session.shell
               Session.migrate_finite Session.failing_writer in
  res = (fst res, snd res) /\
  fst res = Raise (Failure "cannot write checkpoint") /\
  fst res ≠ Return true.
Proof.
  intros res.
  assert (H : res = (fst res, snd res)) by apply surjective_pairing.
  split; [exact H|].
  unfold res, Session.run in H.
  destruct (collaborator_failure_propagates _ _ _ _ _ _ _ _ _ _ _ _ _ _ _ _ _ _ _
              H) as [_ Hwriter].
  pose (a := mkMigrateArgs Session.graph Session.shell
               {[3; 4; 6]}%positive {[5; 7]}%positive [mkCE 0 5] ∅
               (mkObj 91 None) [(3, 4); (4, 3)]%positive "ckpt.pickle").
  assert (Ha : a ∈ migrate_calls (out (snd res)))
    by (vm_compute; apply list_elem_of_here).
  exact (Hwriter a (Failure "cannot write checkpoint") Ha eq_refl).
Defined.

Lemma sizes_after_profiling_witness :
  let A : gset vsref := {[3; 4; 5; 6; 7]}%positive in
  let w := Session.start Session.graph in
  (forall X, Session.order X ≡ₚ elements X) /\
  (forall r, r ∈ A ->
     is_Some (Session.fingerprints !! vs_name (heap w r)) ->
     is_Some (user_ns Session.shell !! vs_name (heap w r))) /\
  exists w',
    profile_stage Session.sizeof Session.order Session.shell
      Session.fingerprints A w = (Return tt, w') /\
    vs_size (heap w' 5%positive) = Inf /\
    vs_size (heap w' 4%positive) = Bytes (Session.sizeof (mkObj 2 None)).
Proof.
  intros A w.
  assert (Hperm : forall X, Session.order X ≡ₚ elements X)
    by (intros X; reflexivity).
  assert (Hall : Forall (fun r => is_Some (user_ns Session.shell
                                             !! vs_name (heap w r)))
                        (elements A))
    by (vm_compute; repeat constructor; eexists; reflexivity).
  assert (Hns : forall r, r ∈ A ->
            is_Some (Session.fingerprints !! vs_name (heap w r)) ->
            is_Some (user_ns Session.shell !! vs_name (heap w r))).
  { intros r Hr _. rewrite Forall_forall in Hall. apply Hall.
    by apply elem_of_elements. }
  split; [exact Hperm|]. split; [exact Hns|].
  destruct (sizes_after_profiling Session.sizeof Session.order Session.shell
              Session.fingerprints Hperm A w Hns) as (w' & E & Hsizes).
  exists w'. split; [exact E|]. split.
  - assert (H5 : (5%positive : vsref) ∈ A) by (vm_compute; reflexivity).
    assert (F5 : Session.fingerprints !! vs_name (heap w 5%positive)
                 = Some (mkFp 102 {[13]}%Z UnserializableObj))
      by (vm_compute; reflexivity).
    destruct (Hsizes _ _ H5 F5) as (v & _ & Hinf & _).
    apply Hinf. left. reflexivity.
  - assert (H4 : (4%positive : vsref) ∈ A) by (vm_compute; reflexivity).
    assert (F4 : Session.fingerprints !! vs_name (heap w 4%positive)
                 = Some (mkFp 101 {[11; 12]}%Z (Tracked (mkObj 2 None))))
      by (vm_compute; reflexivity).
    destruct (Hsizes _ _ H4 F4) as (v & Hv & Hinf & Hfin).
    assert (Ev : v = mkObj 2 None).
    { assert (E4 : user_ns Session.shell !! vs_name (heap w 4%positive)
                   = Some (mkObj 2 None)) by (vm_compute; reflexivity).
      congruence. }
    subst v. apply Hfin. intros Hi. apply Hinf in Hi as [Hu|(m & Hm & _)].
    + discriminate Hu.
    + discriminate Hm.
Defined.

Lemma missing_value_raises_witness :
  let res := Session.run Session.graph Session.shell_without_a
               Session.migrate_finite Session.writer in
  (forall X, Session.order X ≡ₚ elements X) /\
  3%positive ∈ ({[3; 4; 5; 6; 7]}%positive : gset vsref) /\
  is_Some (Session.fingerprints !! vs_name (Session.store 3%positive)) /\
  user_ns Session.shell_without_a !! vs_name (Session.store 3%positive) = None /\
  exists k, fst res = Raise (KeyError k) /\
            select_calls (out (snd res)) = [].
Proof.
  intros res.
  assert (Hperm : forall X, Session.order X ≡ₚ elements X)
    by (intros X; reflexivity).
  assert (H : res = (fst res, snd res)) by apply surjective_pairing.
  assert (E1 : active_stage Session.graph (Session.start Session.graph)
               = (Return ({[3; 4; 5; 6; 7]}%positive : gset vsref),
                  snd (active_stage Session.graph (Session.start Session.graph))))
    by (vm_compute; reflexivity).
  assert (Hr : 3%positive ∈ ({[3; 4; 5; 6; 7]}%positive : gset vsref))
    by (vm_compute; reflexivity).
  assert (Hfp : is_Some (Session.fingerprints !! vs_name (Session.store 3%positive)))
    by (vm_compute; eexists; reflexivity).
  assert (Hns : user_ns Session.shell_without_a
                  !! vs_name (Session.store 3%positive) = None)
    by (vm_compute; reflexivity).
  split; [exact Hperm|]. split; [exact Hr|]. split; [exact Hfp|].
  split; [exact Hns|].
  unfold res, Session.run in H.
  destruct (missing_value_raises _ _ _ _ _ _ _ _ _ _ _ _ _ _ Hperm _ _ _ _ _ _
              H E1 Hr Hfp Hns) as (k & Hk & _ & _ & Hsel & _).
  exists k. split; [exact Hk | exact Hsel].
Defined.

Lemma unfingerprinted_kept_as_is_witness :
  let res := Session.run Session.graph Session.shell
               Session.migrate_finite Session.writer in
  6%positive ∈ ({[3; 4; 5; 6; 7]}%positive : gset vsref) /\
  Session.fingerprints !! vs_name (Session.store 6%positive) = None /\
  fst res = Return true /\
  vs_size (heap (snd res) 6%positive) = Bytes 7 /\
  exists s, select_calls (out (snd res)) = [s] /\
            active_vss s = {[3; 4; 5; 6; 7]}%positive /\
            6%positive ∈ active_vss s.
Proof.
  intros res.
  assert (H : res = (fst res, snd res)) by apply surjective_pairing.
  assert (E1 : active_stage Session.graph (Session.start Session.graph)
               = (Return ({[3; 4; 5; 6; 7]}%positive : gset vsref),
                  snd (active_stage Session.graph (Session.start Session.graph))))
    by (vm_compute; reflexivity).
  assert (Hr : 6%positive ∈ ({[3; 4; 5; 6; 7]}%positive : gset vsref))
    by (vm_compute; reflexivity).
  assert (Hfp : Session.fingerprints !! vs_name (Session.store 6%positive) = None)
    by (vm_compute; reflexivity).
  assert (Hret : fst res = Return true) by (vm_compute; reflexivity).
  split; [exact Hr|]. split; [exact Hfp|]. split; [exact Hret|].
  unfold res, Session.run in H.
  destruct (unfingerprinted_kept_as_is _ _ _ _ _ _ _ _ _ _ _ _ _ _
              _ _ _ _ _ _ _ _ H E1 Hr Hfp) as (Hsize & _ & _ & Hcalled).
  split; [exact Hsize|]. exact (Hcalled true Hret).
Defined.

Lemma unfingerprinted_skipped_not_excluded_witness :
  let res := Session.run Session.graph Session.shell
               Session.migrate_finite Session.writer in
  (forall X, Session.order X ≡ₚ elements X) /\
  6%positive ∈ ({[3; 4; 5; 6; 7]}%positive : gset vsref) /\
  Session.fingerprints !! vs_name (Session.store 6%positive) = None /\
  forall s, s ∈ select_calls (out (snd res)) ->
    Print (missing_warning "d") ∈ out (snd res) /\
    6%positive ∈ active_vss s /\
    forall p, p ∈ overlapping_vss s -> fst p ≠ 6%positive /\ snd p ≠ 6%positive.
Proof.
  intros res.
  assert (Hperm : forall X, Session.order X ≡ₚ elements X)
    by (intros X; reflexivity).
  assert (H : res = (fst res, snd res)) by apply surjective_pairing.
  assert (E1 : active_stage Session.graph (Session.start Session.graph)
               = (Return ({[3; 4; 5; 6; 7]}%positive : gset vsref),
                  snd (active_stage Session.graph (Session.start Session.graph))))
    by (vm_compute; reflexivity).
  assert (Hr : 6%positive ∈ ({[3; 4; 5; 6; 7]}%positive : gset vsref))
    by (vm_compute; reflexivity).
  assert (Hfp : Session.fingerprints !! vs_name (Session.store 6%positive) = None)
    by (vm_compute; reflexivity).
  split; [exact Hperm|]. split; [exact Hr|]. split; [exact Hfp|].
  unfold res, Session.run in H.
  exact (proj2 (unfingerprinted_skipped_not_excluded _ _ _ _ _ _ _ _ _ _ _ _ _ _
                  Hperm _ _ _ _ _ _ _ _ H E1 Hr Hfp)).
Defined.

Lemma graph_left_alone_witness :
  let res := Session.run Session.graph Session.shell
               Session.migrate_finite Session.writer in
  (forall X, Session.order X ≡ₚ elements X) /\
  res = (fst res, snd res) /\
  session_graph (snd res) = Session.graph /\
  sizes_only Session.store (heap (snd res)).
Proof.
  intros res.
  assert (Hperm : forall X, Session.order X ≡ₚ elements X)
    by (intros X; reflexivity).
  assert (H : res = (fst res, snd res)) by apply surjective_pairing.
  split; [exact Hperm|]. split; [exact H|].
  unfold res, Session.run in H.
  destruct (graph_left_alone _ _ _ _ _ _ _ _ _ _ _ _ _ _ Hperm _ _ _ H)
    as (Hgraph & Hsizes & _).
  split; [exact Hgraph | exact Hsizes].
Defined.

(** * Further properties of the routine *)

(** ** What each stage adds to the trace *)

Lemma emits_ret P {A} (a : A) : emits P (mret a : M A).
Proof.
  intros w o w' H. apply ret_inv in H as [_ ->].
  exists []. by rewrite app_nil_r.
Qed.

Lemma emits_raise P {A} e : emits P (raise e : M A).
Proof.
  intros w o w' H. apply raise_inv in H as [_ ->].
  exists []. by rewrite app_nil_r.
Qed.

Lemma emits_lift P {A} (r : Outcome A) : emits P (lift r).
Proof.
  intros w o w' H. apply lift_inv in H as [_ ->].
  exists []. by rewrite app_nil_r.
Qed.

Lemma emits_get_heap P : emits P get_heap.
Proof.
  intros w o w' H. apply get_heap_inv in H as [_ ->].
  exists []. by rewrite app_nil_r.
Qed.

Lemma emits_set_size P r s : emits P (set_size r s).
Proof.
  intros w o w' H. apply set_size_inv in H as (_ & _ & _ & _ & ->).
  exists []. by rewrite app_nil_r.
Qed.

Lemma emits_emit (P : Event -> Prop) e : P e -> emits P (emit e).
Proof.
  intros He w o w' H. unfold emit in H. inversion H; subst; simpl.
  exists [e]. split; [reflexivity|]. by constructor.
Qed.

Lemma emits_bind P {A B} (m : M A) (k : A -> M B) :
  emits P m -> (forall a, emits P (k a)) -> emits P (m ≫= k).
Proof.
  intros Hm Hk w o w' H.
  apply bind_inv in H as [(a & w1 & H1 & H2)|(e & H1 & _)].
  - destruct (Hm _ _ _ H1) as (e1 & O1 & F1).
    destruct (Hk a _ _ _ H2) as (e2 & O2 & F2).
    exists (e1 ++ e2)%list. rewrite O2, O1, <- app_assoc.
    split; [reflexivity|]. by apply Forall_app.
  - by apply (Hm _ _ _ H1).
Qed.

Lemma emits_for_each P {A} (body : A -> M unit) xs :
  (forall x, emits P (body x)) -> emits P (for_each xs body).
Proof.
  intros Hb. induction xs as [|x xs IH]; simpl.
  - apply emits_ret.
  - apply emits_bind; [apply Hb | intros _; exact IH].
Qed.

Ltac emits_steps :=
  repeat first
    [ apply emits_ret
    | apply emits_raise
    | apply emits_lift
    | apply emits_get_heap
    | apply emits_set_size
    | apply emits_emit; reflexivity
    | apply emits_bind; [|intros ?] ].

Lemma emits_collect_active lists acc : emits internal (collect_active lists acc).
Proof.
  revert acc. induction lists as [|l lists IH]; intros acc; simpl.
  - apply emits_ret.
  - apply emits_bind; [|intros r].
    { unfold last_item. destruct (last l); emits_steps. }
    apply emits_bind; [apply emits_get_heap|intros h].
    destruct (negb (vs_deleted (h r))); [|apply IH].
    apply emits_bind; [apply emits_emit; reflexivity|intros _; apply IH].
Qed.

Lemma emits_active_stage graph : emits internal (active_stage graph).
Proof.
  unfold active_stage, print.
  apply emits_bind; [apply emits_emit; reflexivity|intros _].
  apply emits_bind; [apply emits_emit; reflexivity|intros _].
  apply emits_collect_active.
Qed.

Lemma emits_ns_item P ns key : emits P (ns_item ns key).
Proof. unfold ns_item. destruct (ns !! key); emits_steps. Qed.

Lemma emits_profile_one profile_variable_size shell fingerprint_dict r :
  emits internal (profile_one profile_variable_size shell fingerprint_dict r).
Proof.
  unfold profile_one. apply emits_bind; [apply emits_get_heap|intros h].
  destruct (fingerprint_dict !! vs_name (h r)) as [fp|].
  2:{ apply emits_emit. reflexivity. }
  apply emits_bind; [apply emits_ns_item|intros o].
  destruct (is_unserializable (fp_obj fp)); [apply emits_set_size|].
  destruct (blacklisted (py_module o)); [apply emits_set_size|].
  apply emits_bind; [apply emits_ns_item|intros v]. apply emits_set_size.
Qed.

Lemma emits_with_log open_log write_log_location notebook_name optimizer_name body :
  (forall path, emits internal (body path)) ->
  emits internal
    (with_log open_log write_log_location notebook_name optimizer_name body).
Proof.
  intros Hb. unfold with_log.
  destruct (truthy write_log_location); [|apply emits_ret].
  apply emits_bind; [|intros path].
  { unfold log_path, str_add.
    destruct notebook_name, optimizer_name; emits_steps. }
  apply emits_bind; [apply emits_lift|intros _]. apply Hb.
Qed.

Lemma emits_profile_item P d key : emits P (profile_item d key).
Proof. unfold profile_item. destruct (d !! key); emits_steps. Qed.

Lemma emits_log_profile profile_dict n path :
  emits internal (log_profile profile_dict n path).
Proof.
  unfold log_profile.
  apply emits_bind; [apply emits_emit; reflexivity|intros _].
  apply emits_bind; [apply emits_emit; reflexivity|intros _].
  apply emits_bind; [apply emits_profile_item|intros t1].
  apply emits_bind; [apply emits_emit; reflexivity|intros _].
  apply emits_bind; [apply emits_profile_item|intros t2].
  apply emits_emit. reflexivity.
Qed.

Lemma emits_calls {A} (m : M A) w o w' :
  emits internal m -> m w = (o, w') -> calls (out w') = calls (out w).
Proof.
  intros Hm H. destruct (Hm _ _ _ H) as (evs & -> & F).
  unfold calls. rewrite omap_app.
  assert (E : omap (fun e => if external e then Some e else None) evs = []).
  { induction F as [|e evs He _ IH]; [reflexivity|].
    simpl. unfold internal in He. by rewrite He. }
  by rewrite E, app_nil_r.
Qed.

Lemma emits_print line : emits internal (print line).
Proof. apply emits_emit. reflexivity. Qed.

Lemma emits_print_sized r : emits internal (print_sized r).
Proof.
  unfold print_sized. apply emits_bind; [apply emits_get_heap|intros h].
  apply emits_emit. reflexivity.
Qed.

Lemma emits_report_stage set_iter rec ces :
  emits internal (report_stage set_iter rec ces).
Proof.
  unfold report_stage, print.
  apply emits_bind; [apply emits_emit; reflexivity|intros _].
  apply emits_bind; [apply emits_emit; reflexivity|intros _].
  apply emits_bind; [apply emits_for_each, emits_print_sized|intros _].
  apply emits_bind; [apply emits_get_heap|intros h].
  apply emits_bind; [apply emits_emit; reflexivity|intros _].
  apply emits_bind; [apply emits_emit; reflexivity|intros _].
  apply emits_bind; [apply emits_emit; reflexivity|intros _].
  apply emits_bind.
  { apply emits_for_each. intros ce. apply emits_emit. reflexivity. }
  intros _. apply emits_emit. reflexivity.
Qed.

Lemma emits_log_optimize path : emits internal (log_optimize path).
Proof.
  unfold log_optimize.
  apply emits_bind; [apply emits_emit; reflexivity|intros _].
  apply emits_bind; [apply emits_emit; reflexivity|intros _].
  apply emits_bind; [apply emits_emit; reflexivity|intros _].
  apply emits_emit. reflexivity.
Qed.

Lemma emits_log_migrate path : emits internal (log_migrate path).
Proof. apply emits_emit. reflexivity. Qed.

Lemma calls_snoc t e : external e = true -> calls (t ++ [e]) = (calls t ++ [e])%list.
Proof. intros He. unfold calls. rewrite omap_app. simpl. by rewrite He. Qed.

Lemma update_stage_calls elastic_notebook mig rec w o w' :
  update_stage elastic_notebook mig rec w = (o, w') ->
  calls (out w') = (calls (out w) ++ notebook_call elastic_notebook mig rec)%list /\
  match elastic_notebook with
  | Some nb => o = update_migration_lists nb mig rec
  | None => o = Return tt
  end.
Proof.
  unfold update_stage, notebook_call. destruct elastic_notebook as [nb|]; intros H.
  - rewrite (bind_return (emit _) _ _ _ _ eq_refl) in H.
    apply lift_inv in H as [-> ->]. simpl. split; [by apply calls_snoc|done].
  - apply ret_inv in H as [-> ->]. split; [by rewrite app_nil_r|done].
Qed.

Section Protocol.

Variable profile_variable_size : PyObj -> N.
Variable select_vss :
  Selector -> Heap -> option string -> option string -> option string ->
  Outcome (gset vsref * list ComputeEdge) * Selector.
Variable migrate : MigrateArgs -> Heap -> Outcome PyObj.
Variable open_log : string -> Outcome unit.
Variable set_iter : gset vsref -> list vsref.

Variable shell : Shell.
Variable fingerprint_dict : gmap string Fingerprint.
Variable udfs : gset string.
Variable filename : string.
Variable profile_dict : gmap string N.
Variables write_log_location notebook_name optimizer_name : option string.
Variable elastic_notebook : option ElasticNotebook.

(** The calls a run adds to the trace. *)
Lemma checkpoint_call_sequence w o w' :
  checkpoint profile_variable_size select_vss migrate open_log set_iter
    shell fingerprint_dict udfs filename profile_dict
    write_log_location notebook_name optimizer_name elastic_notebook w = (o, w') ->
  exists C, calls (out w') = (calls (out w) ++ C)%list /\
            call_sequence elastic_notebook o C.
Proof.
  unfold checkpoint. intros H.
  rewrite (bind_return get_graph _ _ _ _ eq_refl) in H.
  destruct (active_stage (session_graph w) w) as [o1 w1] eqn:E1.
  pose proof (emits_calls _ _ _ _ (emits_active_stage _) E1) as C1.
  destruct o1 as [A|e1].
  2:{ rewrite (bind_raise _ _ _ _ _ E1) in H. inversion H; subst.
      exists []. rewrite app_nil_r. split; [done|]. left. eauto. }
  rewrite (bind_return _ _ _ _ _ E1) in H.
  destruct (profile_stage profile_variable_size set_iter shell fingerprint_dict A w1)
    as [o2 w2] eqn:E2.
  assert (C2 : calls (out w2) = calls (out w1)).
  { eapply emits_calls; [|exact E2]. apply emits_for_each.
    intros r. apply emits_profile_one. }
  destruct o2 as [[]|e2].
  2:{ rewrite (bind_raise _ _ _ _ _ E2) in H. inversion H; subst.
      exists []. rewrite app_nil_r. split; [congruence|]. left. eauto. }
  rewrite (bind_return _ _ _ _ _ E2) in H.
  rewrite (bind_return (overlap_stage _ _ _) _ _ _ _ eq_refl) in H.
  set (ov := overlap_loops fingerprint_dict (heap w2) (set_iter A)) in *.
  destruct (with_log open_log write_log_location notebook_name optimizer_name
              (log_profile profile_dict (length ov)) w2) as [o4 w4] eqn:E4.
  assert (C4 : calls (out w4) = calls (out w2)).
  { eapply emits_calls; [|exact E4]. apply emits_with_log.
    intros path. apply emits_log_profile. }
  destruct o4 as [[]|e4].
  2:{ rewrite (bind_raise _ _ _ _ _ E4) in H. inversion H; subst.
      exists []. rewrite app_nil_r. split; [congruence|]. left. eauto. }
  rewrite (bind_return _ _ _ _ _ E4) in H.
  destruct (select_stage select_vss (session_graph w) A ov write_log_location
              notebook_name optimizer_name w4) as [o5 w5] eqn:E5.
  pose proof (select_stage_spec _ _ _ _ _ _ _ _ _ _ E5) as (_ & _ & _ & _ & O5).
  cbv zeta in O5.
  set (s := primed (session_graph w) A ov (selector w4)) in *.
  assert (C5 : calls (out w5) = (calls (out w) ++ [CallSelect s])%list).
  { rewrite O5, calls_snoc by done. congruence. }
  destruct o5 as [[mig ces]|e5].
  2:{ rewrite (bind_raise _ _ _ _ _ E5) in H. inversion H; subst.
      exists [CallSelect s]. split; [done|]. right. left. eauto. }
  rewrite (bind_return _ _ _ _ _ E5) in H.
  destruct (print "---------------------------" w5) as [o6 w6] eqn:E6.
  pose proof (emits_calls _ _ _ _ (emits_print _) E6) as C6.
  apply print_quiet in E6 as E6'. destruct E6' as [-> _].
  rewrite (bind_return _ _ _ _ _ E6) in H.
  destruct (print "variables to migrate:" w6) as [o7 w7] eqn:E7.
  pose proof (emits_calls _ _ _ _ (emits_print _) E7) as C7.
  apply print_quiet in E7 as E7'. destruct E7' as [-> _].
  rewrite (bind_return _ _ _ _ _ E7) in H.
  destruct (for_each_returns print_sized (set_iter mig) print_sized_returns w7)
    as [w8 E8].
  pose proof (emits_calls _ _ _ _ (emits_for_each _ _ _ emits_print_sized) E8) as C8.
  rewrite (bind_return _ _ _ _ _ E8) in H.
  destruct (report_stage set_iter (A ∖ mig) ces w8) as [o9 w9] eqn:E9.
  pose proof (emits_calls _ _ _ _ (emits_report_stage _ _ _) E9) as C9.
  apply report_stage_quiet in E9 as E9'. destruct E9' as [-> _].
  rewrite (bind_return _ _ _ _ _ E9) in H.
  destruct (with_log open_log write_log_location notebook_name optimizer_name
              log_optimize w9) as [o10 w10] eqn:E10.
  assert (C10 : calls (out w10) = calls (out w9)).
  { eapply emits_calls; [|exact E10]. apply emits_with_log, emits_log_optimize. }
  assert (C5_10 : calls (out w10) = (calls (out w) ++ [CallSelect s])%list)
    by congruence.
  destruct o10 as [[]|e10].
  2:{ rewrite (bind_raise _ _ _ _ _ E10) in H. inversion H; subst.
      exists [CallSelect s]. split; [done|]. right. left. eauto. }
  rewrite (bind_return _ _ _ _ _ E10) in H.
  destruct (update_stage elastic_notebook mig (A ∖ mig) w10) as [o11 w11] eqn:E11.
  pose proof (update_stage_calls _ _ _ _ _ _ E11) as [C11 T11].
  rewrite C5_10, <- app_assoc in C11.
  destruct o11 as [[]|e11].
  2:{ rewrite (bind_raise _ _ _ _ _ E11) in H. inversion H; subst.
      eexists. split; [exact C11|].
      destruct elastic_notebook as [nb|]; [|done]. simpl.
      right. right. left. exists s, mig, (A ∖ mig), nb, e11. auto. }
  rewrite (bind_return _ _ _ _ _ E11) in H.
  rewrite (bind_return get_selector _ _ _ _ eq_refl) in H.
  set (a := mkMigrateArgs (session_graph w) shell mig (A ∖ mig) ces udfs
              (recomputation_ces (selector w11)) (overlapping_vss (selector w11))
              filename) in *.
  destruct (migrate_stage migrate a w11) as [o12 w12] eqn:E12.
  pose proof (migrate_stage_spec _ _ _ _ _ E12) as (_ & _ & _ & O12 & _).
  assert (C12 : calls (out w12)
                = (calls (out w) ++
                   ([CallSelect s] ++ notebook_call elastic_notebook mig (A ∖ mig)
                    ++ [CallMigrate a]))%list).
  { rewrite O12, calls_snoc by done. rewrite C11.
    by rewrite <- !app_assoc. }
  assert (Hshape : call_sequence elastic_notebook o
                     ([CallSelect s] ++ notebook_call elastic_notebook mig (A ∖ mig)
                      ++ [CallMigrate a])).
  { right. right. right. exists s, a. split; [reflexivity|].
    intros nb Enb. rewrite Enb in T11. simpl. by rewrite <- T11. }
  destruct o12 as [[]|e12].
  2:{ rewrite (bind_raise _ _ _ _ _ E12) in H. inversion H; subst.
      eexists. split; [exact C12 | exact Hshape]. }
  rewrite (bind_return _ _ _ _ _ E12) in H.
  destruct (with_log open_log write_log_location notebook_name optimizer_name
              log_migrate w12) as [o13 w13] eqn:E13.
  assert (C13 : calls (out w13) = calls (out w12)).
  { eapply emits_calls; [|exact E13]. apply emits_with_log, emits_log_migrate. }
  destruct o13 as [[]|e13].
  - rewrite (bind_return _ _ _ _ _ E13) in H. apply ret_inv in H as [-> ->].
    eexists. split; [|exact Hshape]. congruence.
  - rewrite (bind_raise _ _ _ _ _ E13) in H. inversion H; subst.
    eexists. split; [|exact Hshape]. congruence.
Qed.

(** The collaborators are called in one fixed order, each at most once:
    the selector, then the notebook (when there is one) with the two sets of
    the partition, then the writer with the same two sets.  A run that
    returns has made all of these calls; a run that raised stopped somewhere
    along this sequence.  When the notebook's callback raises, the call
    raises that exception and the writer is not called; when it returns,
    the writer is called next. *)
Theorem calls_in_order h g sel o w' :
  checkpoint profile_variable_size select_vss migrate open_log set_iter
    shell fingerprint_dict udfs filename profile_dict
    write_log_location notebook_name optimizer_name elastic_notebook
    (fresh_world h g sel) = (o, w') ->
  call_sequence elastic_notebook o (calls (out w')) /\
  (forall b, o = Return b ->
     exists s a,
       calls (out w')
       = ([CallSelect s] ++
          notebook_call elastic_notebook (m_vss_to_migrate a)
                        (m_vss_to_recompute a) ++
          [CallMigrate a])%list) /\
  (forall nb mig rec e,
     elastic_notebook = Some nb ->
     CallUpdate mig rec ∈ calls (out w') ->
     update_migration_lists nb mig rec = Raise e ->
     o = Raise e /\ forall a, CallMigrate a ∉ calls (out w')) /\
  (forall nb mig rec,
     elastic_notebook = Some nb ->
     CallUpdate mig rec ∈ calls (out w') ->
     update_migration_lists nb mig rec = Return tt ->
     exists a, CallMigrate a ∈ calls (out w') /\
               m_vss_to_migrate a = mig /\ m_vss_to_recompute a = rec).
Proof.
  intros H. destruct (checkpoint_call_sequence _ _ _ H) as (C & EC & HC).
  simpl in EC. rewrite EC. split; [exact HC|].
  destruct HC as [[-> [e0 ->]]|[(s & -> & e0 & ->)|
                  [(s & m & r & nb0 & e0 & -> & Enb & Hup & ->)|
                   (s & a & -> & Hret)]]].
  - split; [done|]. split.
    + intros nb mig rec e _ Hin _. by apply elem_of_nil in Hin.
    + intros nb mig rec _ Hin _. by apply elem_of_nil in Hin.
  - split; [done|]. split.
    + intros nb mig rec e _ Hin _.
      apply list_elem_of_singleton in Hin. discriminate Hin.
    + intros nb mig rec _ Hin _.
      apply list_elem_of_singleton in Hin. discriminate Hin.
  - split; [done|]. split.
    + intros nb mig rec e Hnb Hin Hraise.
      apply elem_of_cons in Hin as [[=]|Hin].
      apply list_elem_of_singleton in Hin as [= -> ->].
      assert (nb = nb0) as -> by congruence.
      split; [congruence|].
      intros a Ha. apply elem_of_cons in Ha as [[=]|Ha].
      apply list_elem_of_singleton in Ha. discriminate Ha.
    + intros nb mig rec Hnb Hin Hok.
      apply elem_of_cons in Hin as [[=]|Hin].
      apply list_elem_of_singleton in Hin as [= -> ->].
      assert (nb = nb0) as -> by congruence. congruence.
  - split; [intros b _; eauto|].
    assert (Hupd : forall nb mig rec,
              elastic_notebook = Some nb ->
              CallUpdate mig rec
              ∈ ([CallSelect s] ++
                 notebook_call elastic_notebook (m_vss_to_migrate a)
                               (m_vss_to_recompute a) ++ [CallMigrate a])%list ->
              mig = m_vss_to_migrate a /\ rec = m_vss_to_recompute a).
    { intros nb mig rec Hnb Hin. rewrite Hnb in Hin. simpl in Hin.
      apply elem_of_cons in Hin as [[=]|Hin].
      apply elem_of_cons in Hin as [[= -> ->]|Hin]; [done|].
      apply list_elem_of_singleton in Hin. discriminate Hin. }
    split.
    + intros nb mig rec e Hnb Hin Hraise.
      destruct (Hupd _ _ _ Hnb Hin) as [-> ->].
      rewrite (Hret _ Hnb) in Hraise. discriminate Hraise.
    + intros nb mig rec Hnb Hin _.
      destruct (Hupd _ _ _ Hnb Hin) as [-> ->].
      exists a. split; [|done].
      apply elem_of_app. right. apply elem_of_app. right.
      apply list_elem_of_here.
Qed.

(** A tracked name with an empty list of versions makes the call raise
    [IndexError] while it collects the active snapshots: no size has been
    written and no collaborator has been called. *)
Theorem empty_history_raises w n :
  (n, []) ∈ variable_snapshots (session_graph w) ->
  exists w',
    checkpoint profile_variable_size select_vss migrate open_log set_iter
      shell fingerprint_dict udfs filename profile_dict
      write_log_location notebook_name optimizer_name elastic_notebook w
      = (Raise IndexError, w') /\
    heap w' = heap w /\ selector w' = selector w /\
    calls (out w') = calls (out w).
Proof.
  intros Hn.
  destruct (checkpoint profile_variable_size select_vss migrate open_log set_iter
              shell fingerprint_dict udfs filename profile_dict
              write_log_location notebook_name optimizer_name elastic_notebook w)
    as [o w'] eqn:H.
  destruct (checkpoint_anatomy _ _ _ _ _ _ _ _ _ _ _ _ _ _ _ _ _ H)
    as (o1 & w1 & E1 & H1).
  pose proof (active_stage_spec _ _ _ _ E1) as [(Hh & _ & Hs & _) P].
  pose proof (emits_calls _ _ _ _ (emits_active_stage _) E1) as C1.
  destruct o1 as [A|e].
  { destruct P as [Hne _]. by destruct (Hne _ _ Hn). }
  destruct P as [-> _]. destruct H1 as [-> ->].
  exists w1. auto.
Qed.

Lemma with_log_off body w :
  truthy write_log_location = false ->
  with_log open_log write_log_location notebook_name optimizer_name body w
  = (Return tt, w).
Proof. unfold with_log. intros ->. reflexivity. Qed.

Lemma with_log_type_error body w :
  truthy write_log_location = true ->
  notebook_name = None \/ optimizer_name = None ->
  with_log open_log write_log_location notebook_name optimizer_name body w
  = (Raise TypeError, w).
Proof.
  unfold with_log. intros -> Hnone.
  unfold log_path, str_add.
  destruct notebook_name as [n|]; [|reflexivity].
  destruct optimizer_name as [o|]; [|reflexivity].
  by destruct Hnone.
Qed.

Lemma with_log_on body w loc n o :
  truthy write_log_location = true ->
  write_log_location = Some loc ->
  notebook_name = Some n -> optimizer_name = Some o ->
  with_log open_log write_log_location notebook_name optimizer_name body w
  = (lift (open_log (diagnostics_path loc n o)) ≫= fun _ =>
       body (diagnostics_path loc n o)) w.
Proof.
  unfold with_log. intros -> -> -> ->. reflexivity.
Qed.

(** Running up to the first block of diagnostics. *)
Lemma checkpoint_until_diagnostics w A w1 w2 o4 w4 :
  active_stage (session_graph w) w = (Return A, w1) ->
  profile_stage profile_variable_size set_iter shell fingerprint_dict A w1
    = (Return tt, w2) ->
  with_log open_log write_log_location notebook_name optimizer_name
    (log_profile profile_dict
       (length (overlap_loops fingerprint_dict (heap w2) (set_iter A)))) w2
    = (Raise o4, w4) ->
  checkpoint profile_variable_size select_vss migrate open_log set_iter
    shell fingerprint_dict udfs filename profile_dict
    write_log_location notebook_name optimizer_name elastic_notebook w
  = (Raise o4, w4).
Proof.
  intros E1 E2 E4. unfold checkpoint.
  rewrite (bind_return get_graph _ _ _ _ eq_refl).
  rewrite (bind_return _ _ _ _ _ E1).
  rewrite (bind_return _ _ _ _ _ E2).
  rewrite (bind_return (overlap_stage _ _ _) _ _ _ _ eq_refl).
  by rewrite (bind_raise _ _ _ _ _ E4).
Qed.

(** With a log location but without a notebook name or an optimizer name
    (the defaults), the call raises [TypeError] when it builds the path of
    the diagnostics file: after the sizes have been written, before the
    selector is called. *)
Theorem diagnostics_need_names w A w1 w2 :
  active_stage (session_graph w) w = (Return A, w1) ->
  profile_stage profile_variable_size set_iter shell fingerprint_dict A w1
    = (Return tt, w2) ->
  truthy write_log_location = true ->
  notebook_name = None \/ optimizer_name = None ->
  checkpoint profile_variable_size select_vss migrate open_log set_iter
    shell fingerprint_dict udfs filename profile_dict
    write_log_location notebook_name optimizer_name elastic_notebook w
  = (Raise TypeError, w2).
Proof.
  intros E1 E2 Ht Hnone.
  eapply checkpoint_until_diagnostics; [exact E1 | exact E2 |].
  by apply with_log_type_error.
Qed.

(** When the diagnostics file cannot be opened the call ends in the error of
    [open], again after profiling and before selection. *)
Theorem diagnostics_open_failure w A w1 w2 loc n o e :
  active_stage (session_graph w) w = (Return A, w1) ->
  profile_stage profile_variable_size set_iter shell fingerprint_dict A w1
    = (Return tt, w2) ->
  truthy write_log_location = true ->
  write_log_location = Some loc ->
  notebook_name = Some n -> optimizer_name = Some o ->
  open_log (diagnostics_path loc n o) = Raise e ->
  checkpoint profile_variable_size select_vss migrate open_log set_iter
    shell fingerprint_dict udfs filename profile_dict
    write_log_location notebook_name optimizer_name elastic_notebook w
  = (Raise e, w2).
Proof.
  intros E1 E2 Ht Hloc Hn Ho Hopen.
  eapply checkpoint_until_diagnostics; [exact E1 | exact E2 |].
  rewrite (with_log_on _ _ _ _ _ Ht Hloc Hn Ho).
  apply bind_raise. unfold lift. by rewrite Hopen.
Qed.

(** A [profile_dict] without the key "idgraph" makes the call raise
    [KeyError] in the middle of the first block of diagnostics: two lines
    are already in the file, the selector has not been called. *)
Theorem diagnostics_missing_timing w A w1 w2 loc n o :
  active_stage (session_graph w) w = (Return A, w1) ->
  profile_stage profile_variable_size set_iter shell fingerprint_dict A w1
    = (Return tt, w2) ->
  truthy write_log_location = true ->
  write_log_location = Some loc ->
  notebook_name = Some n -> optimizer_name = Some o ->
  open_log (diagnostics_path loc n o) = Return tt ->
  profile_dict !! "idgraph" = None ->
  let path := diagnostics_path loc n o in
  let overlaps := overlap_loops fingerprint_dict (heap w2) (set_iter A) in
  checkpoint profile_variable_size select_vss migrate open_log set_iter
    shell fingerprint_dict udfs filename profile_dict
    write_log_location notebook_name optimizer_name elastic_notebook w
  = (Raise (KeyError "idgraph"),
     mkWorld (heap w2) (session_graph w2) (selector w2)
             (out w2 ++ [LogWrite path (LogOverlappings (length overlaps));
                         LogWrite path LogProfileStage])).
Proof.
  intros E1 E2 Ht Hloc Hn Ho Hopen Hkey path overlaps.
  eapply checkpoint_until_diagnostics; [exact E1 | exact E2 |].
  rewrite (with_log_on _ _ _ _ _ Ht Hloc Hn Ho).
  erewrite bind_return; [|unfold lift; by rewrite Hopen].
  unfold log_profile.
  rewrite (bind_return (emit _) _ _ _ _ eq_refl).
  rewrite (bind_return (emit _) _ _ _ _ eq_refl).
  apply bind_raise. unfold profile_item. rewrite Hkey. unfold raise. simpl.
  by rewrite <- app_assoc.
Qed.

(** Without a log location ([None] or the empty string) the diagnostics are
    off altogether: the file is never opened and [profile_dict] is never read,
    so the run is the same whatever [open] would do and whatever the
    dictionary holds. *)
Theorem logging_off_ignores_diagnostics open_log' profile_dict' w :
  truthy write_log_location = false ->
  checkpoint profile_variable_size select_vss migrate open_log set_iter
    shell fingerprint_dict udfs filename profile_dict
    write_log_location notebook_name optimizer_name elastic_notebook w
  = checkpoint profile_variable_size select_vss migrate open_log' set_iter
      shell fingerprint_dict udfs filename profile_dict'
      write_log_location notebook_name optimizer_name elastic_notebook w.
Proof.
  intros Ht. unfold checkpoint, with_log. rewrite Ht. reflexivity.
Qed.

Hypothesis set_iter_perm : forall X, set_iter X ≡ₚ elements X.

(** When the call goes through.  Every tracked name has a version, every
    active fingerprinted name is in the namespace, the diagnostics are off,
    and neither the selector, the notebook nor the writer raises: then the
    call returns [True], having called the selector once and the writer
    once. *)
Theorem checkpoint_succeeds w :
  Forall (fun entry => snd entry ≠ []) (variable_snapshots (session_graph w)) ->
  (forall n l r,
     (n, l) ∈ variable_snapshots (session_graph w) ->
     last l = Some r -> vs_deleted (heap w r) = false ->
     is_Some (fingerprint_dict !! vs_name (heap w r)) ->
     is_Some (user_ns shell !! vs_name (heap w r))) ->
  truthy write_log_location = false ->
  (forall s h, exists result,
     fst (select_vss s h write_log_location notebook_name optimizer_name)
     = Return result) ->
  (forall nb mig rec,
     elastic_notebook = Some nb -> update_migration_lists nb mig rec = Return tt) ->
  (forall a h, exists v, migrate a h = Return v) ->
  exists w' s a,
    checkpoint profile_variable_size select_vss migrate open_log set_iter
      shell fingerprint_dict udfs filename profile_dict
      write_log_location notebook_name optimizer_name elastic_notebook w
    = (Return true, w') /\
    select_calls (out w') = (select_calls (out w) ++ [s])%list /\
    migrate_calls (out w') = (migrate_calls (out w) ++ [a])%list.
Proof.
  intros Hne Hns Hoff Hsel Hnb Hmig.
  destruct (checkpoint profile_variable_size select_vss migrate open_log set_iter
              shell fingerprint_dict udfs filename profile_dict
              write_log_location notebook_name optimizer_name elastic_notebook w)
    as [o w'] eqn:H.
  destruct (checkpoint_anatomy _ _ _ _ _ _ _ _ _ _ _ _ _ _ _ _ _ H)
    as (o1 & w1 & E1 & H1).
  pose proof (active_stage_spec _ _ _ _ E1) as [[Hh1 _] P1].
  destruct o1 as [A|e].
  2:{ destruct P1 as [_ [n Hn]]. rewrite Forall_forall in Hne.
      by destruct (Hne _ Hn). }
  destruct P1 as [_ P1].
  destruct H1 as (o2 & w2 & E2 & H2).
  unfold profile_stage in E2. apply profile_loop_spec in E2 as (_ & _ & _ & P2).
  rewrite Hh1 in P2.
  destruct o2 as [[]|e].
  2:{ destruct P2 as (r & Hr & Hfp & Hnone & _).
      rewrite set_iter_perm, elem_of_elements in Hr.
      apply P1 in Hr as (n & l & Hl & Hlast & Hlive).
      destruct (Hns n l r Hl Hlast Hlive Hfp) as [v Hv]. congruence. }
  destruct H2 as (_ & _ & _ & [(_ & Ht & _)|(Cs & _ & Hr)]); [congruence|].
  match type of Hr with
  | match fst (select_vss ?s ?h _ _ _) with _ => _ end =>
      destruct (Hsel s h) as [[mig ces] Er]; rewrite Er in Hr; cbv zeta in Hr
  end.
  destruct Hr as [[(e & -> & [Ht|(nb & Enb & Hraise)]) _]|[Cm Hm]].
  { congruence. }
  { rewrite (Hnb nb _ _ Enb) in Hraise. done. }
  match type of Hm with
  | match migrate ?a ?h with _ => _ end =>
      destruct (Hmig a h) as [v Ev]; rewrite Ev in Hm
  end.
  destruct Hm as [->|[_ Ht]]; [|congruence].
  exists w'. eexists _, _. split; [reflexivity|]. split; [exact Cs | exact Cm].
Qed.

(** Selection comes after profiling.  The selector is called with its
    [dependency_graph] set to the graph and its [recomputation_ces] as they
    were before the call, and the store it then reads has, on every active
    fingerprinted snapshot, the size the profiling loop assigned. *)
Theorem selector_sees_profiled_sizes h g sel o w' s :
  checkpoint profile_variable_size select_vss migrate open_log set_iter
    shell fingerprint_dict udfs filename profile_dict
    write_log_location notebook_name optimizer_name elastic_notebook
    (fresh_world h g sel) = (o, w') ->
  s ∈ select_calls (out w') ->
  dependency_graph s = Some g /\
  recomputation_ces s = recomputation_ces sel /\
  selector w'
  = snd (select_vss s (heap w') write_log_location notebook_name optimizer_name) /\
  forall r fp,
    r ∈ active_vss s ->
    fingerprint_dict !! vs_name (h r) = Some fp ->
    exists v, user_ns shell !! vs_name (h r) = Some v /\
              vs_size (heap w' r) = profiled_size profile_variable_size fp v.
Proof.
  intros H Hs.
  destruct (selector_called _ _ _ _ _ _ _ _ _ _ _ _ _ _ (fresh_world h g sel)
              _ _ _ eq_refl H Hs)
    as (A & w1 & w2 & E1 & E2 & (_ & Hh & _ & D) & Cs & Es).
  pose proof (active_stage_spec _ _ _ _ E1) as [[Hh1 _] _]. simpl in Hh1.
  unfold profile_stage in E2. apply profile_loop_spec in E2 as (_ & _ & _ & P2).
  rewrite Hh1 in P2.
  split; [by rewrite Es|]. split; [by rewrite Es|]. split.
  - destruct D as [(_ & _ & _ & Cs' & _)|(_ & Hsel & _)].
    + simpl in Cs'. rewrite Cs' in Cs. done.
    + rewrite Hh, Es. exact Hsel.
  - intros r fp Hr Hfp. rewrite Es in Hr. simpl in Hr.
    rewrite <- set_iter_elem in Hr by exact set_iter_perm.
    specialize (P2 r Hr). rewrite Hfp in P2. by rewrite Hh.
Qed.

End Protocol.

(** ** The denylist test *)

Lemma prefix_spec needle haystack :
  String.prefix needle haystack = true <-> exists rest, haystack = needle ++ rest.
Proof.
  revert haystack. induction needle as [|c needle IH]; intros haystack.
  - split; [|by destruct haystack].
    intros _. by exists haystack.
  - destruct haystack as [|d haystack]; simpl.
    { split; [done|]. by intros [rest ?]. }
    destruct (Ascii.ascii_dec c d) as [->|Hneq].
    + rewrite IH. split; intros [rest E]; exists rest; [by rewrite E|].
      by inversion E.
    + split; [done|]. intros [rest E]. inversion E. done.
Qed.

Lemma str_contains_spec needle haystack :
  str_contains needle haystack = true <-> substring_of needle haystack.
Proof.
  unfold substring_of.
  induction haystack as [|c haystack IH]; cbn [str_contains];
    rewrite orb_true_iff.
  - split.
    + intros [Hp|?]; [|done]. apply prefix_spec in Hp as [rest E].
      by exists "", rest.
    + intros (before & after & E). left. apply prefix_spec.
      destruct before; [by exists after|done].
  - rewrite IH, prefix_spec. split.
    + intros [[rest E]|(before & after & E)].
      * by exists "", rest.
      * exists (String c before), after. simpl. by rewrite E.
    + intros (before & after & E). destruct before as [|d before]; simpl in E.
      * left. by exists after.
      * right. inversion E. by exists before, after.
Qed.

(** The denylist test of line 66 is a substring test on [__module__]: a
    value counts as denylisted exactly when its module name contains
    "dataprep.eda" or "bokeh" anywhere, also inside a longer word; a value
    without module name, or with an empty one, never does. *)
Theorem blacklisted_iff_substring attr_str :
  blacklisted attr_str = true <->
  exists m, attr_str = Some m /\
            (substring_of "dataprep.eda" m \/ substring_of "bokeh" m).
Proof.
  rewrite blacklisted_spec. split; intros (m & E & H); exists m; (split; [exact E|]).
  - by rewrite <- !str_contains_spec.
  - by rewrite !str_contains_spec.
Qed.

(** ** One active snapshot per name *)

Lemma unique_key_unique_value {A} (l : list (string * A)) k a b :
  NoDup (map fst l) -> (k, a) ∈ l -> (k, b) ∈ l -> a = b.
Proof.
  induction l as [|[k' c] l IH]; simpl; intros ND Ha Hb.
  { by apply elem_of_nil in Ha. }
  apply NoDup_cons in ND as [Hk ND].
  assert (Hin : forall x, (k', x) ∈ l -> False).
  { intros x Hx. apply Hk. apply list_elem_of_fmap. by exists (k', x). }
  apply elem_of_cons in Ha as [Ea|Ha]; apply elem_of_cons in Hb as [Eb|Hb].
  - congruence.
  - inversion Ea; subst. by destruct (Hin b).
  - inversion Eb; subst. by destruct (Hin a).
  - by apply IH.
Qed.

(** In a graph whose version lists hold snapshots of the name they are
    filed under, no two active snapshots have the same name: the lookups by
    [active_vs.name] in the profiling and overlap loops cannot confuse two
    of them. *)
Theorem one_active_per_name graph w A w' r1 r2 :
  NoDup (map fst (variable_snapshots graph)) ->
  (forall n l r, (n, l) ∈ variable_snapshots graph -> r ∈ l ->
                 vs_name (heap w r) = n) ->
  active_stage graph w = (Return A, w') ->
  r1 ∈ A -> r2 ∈ A ->
  vs_name (heap w r1) = vs_name (heap w r2) ->
  r1 = r2.
Proof.
  intros ND Hname E H1 H2 Heq.
  apply active_stage_spec in E as [_ [_ P]].
  apply P in H1 as (n1 & l1 & Hl1 & L1 & _).
  apply P in H2 as (n2 & l2 & Hl2 & L2 & _).
  assert (E1 : vs_name (heap w r1) = n1).
  { apply (Hname n1 l1); [done|]. by apply last_Some_elem_of. }
  assert (E2 : vs_name (heap w r2) = n2).
  { apply (Hname n2 l2); [done|]. by apply last_Some_elem_of. }
  assert (n1 = n2) as -> by congruence.
  assert (l1 = l2) as -> by (eapply unique_key_unique_value; eauto).
  congruence.
Qed.

(** ** The iteration order of the active set *)

Section Orders.

Variable profile_variable_size : PyObj -> N.
Variable shell : Shell.
Variable fingerprint_dict : gmap string Fingerprint.
Variables iter1 iter2 : gset vsref -> list vsref.
Hypothesis iter1_perm : forall X, iter1 X ≡ₚ elements X.
Hypothesis iter2_perm : forall X, iter2 X ≡ₚ elements X.

Lemma snapshot_eq (a b : VariableSnapshot) :
  vs_name a = vs_name b -> vs_version a = vs_version b ->
  vs_deleted a = vs_deleted b -> vs_size a = vs_size b -> a = b.
Proof. destruct a, b; simpl. by intros -> -> -> ->. Qed.

(** Python does not say in which order a set is iterated, and for the
    profiling loop it does not matter: it completes under one order exactly
    when it completes under another, and then leaves the same store. *)
Theorem profiling_ignores_iteration_order A w o1 w1 o2 w2 :
  profile_stage profile_variable_size iter1 shell fingerprint_dict A w = (o1, w1) ->
  profile_stage profile_variable_size iter2 shell fingerprint_dict A w = (o2, w2) ->
  (o1 = Return tt <-> o2 = Return tt) /\
  (o1 = Return tt -> forall r, heap w1 r = heap w2 r).
Proof.
  unfold profile_stage. intros E1 E2.
  apply profile_loop_spec in E1 as (_ & Z1 & F1 & P1).
  apply profile_loop_spec in E2 as (_ & Z2 & F2 & P2).
  assert (Hiter : forall r, r ∈ iter1 A <-> r ∈ iter2 A).
  { intros r. by rewrite iter1_perm, iter2_perm. }
  assert (Hsame : o1 = Return tt <-> o2 = Return tt).
  { destruct o1 as [[]|e1], o2 as [[]|e2]; try done.
    - destruct P2 as (r & Hr & [fp Hfp] & Hnone & _).
      apply Hiter in Hr. specialize (P1 r Hr). rewrite Hfp in P1.
      destruct P1 as (v & Hv & _). congruence.
    - destruct P1 as (r & Hr & [fp Hfp] & Hnone & _).
      apply Hiter in Hr. specialize (P2 r Hr). rewrite Hfp in P2.
      destruct P2 as (v & Hv & _). congruence. }
  split; [exact Hsame|].
  intros ->. assert (o2 = Return tt) as -> by by apply Hsame.
  intros r.
  destruct (Z1 r) as (N1 & V1 & D1), (Z2 r) as (N2 & V2 & D2).
  apply snapshot_eq; try congruence.
  destruct (decide (r ∈ iter1 A)) as [Hin|Hout].
  - specialize (P1 r Hin). apply Hiter in Hin. specialize (P2 r Hin).
    destruct (fingerprint_dict !! vs_name (heap w r)) as [fp|] eqn:Efp.
    + destruct P1 as (v1 & Hv1 & ->), P2 as (v2 & Hv2 & ->). congruence.
    + rewrite F1, F2 by (by right). reflexivity.
  - rewrite F1 by (by left). rewrite F2; [done|]. left. by rewrite <- Hiter.
Qed.

(** The overlap list depends on the iteration order only in how it is
    arranged: under two orders it has the same pairs, each once. *)
Theorem overlaps_ignore_iteration_order (h : Heap) A :
  overlap_loops fingerprint_dict h (iter1 A)
  ≡ₚ overlap_loops fingerprint_dict h (iter2 A).
Proof.
  apply NoDup_Permutation.
  - apply overlap_loops_NoDup. rewrite iter1_perm. apply NoDup_elements.
  - apply overlap_loops_NoDup. rewrite iter2_perm. apply NoDup_elements.
  - intros [a b]. rewrite !overlap_loops_elem.
    by rewrite !iter1_perm, !iter2_perm.
Qed.

End Orders.

(** ** Runs on the sessions *)

Lemma checkpoint_returns_true_witness :
  let res := Session.run Session.graph Session.shell
               Session.migrate_finite Session.writer in
  res = (Return true, snd res) /\ true = true.
Proof.
  intros res.
  assert (H : res = (Return true, snd res)) by (vm_compute; reflexivity).
  split; [exact H|].
  unfold res, Session.run in H.
  exact (checkpoint_returns_true _ _ _ _ _ _ _ _ _ _ _ _ _ _ _ _ _ H).
Defined.

Lemma calls_in_order_witness :
  let res := Probe.run Session.graph Session.shell Session.migrate_finite
               Session.writer Session.open_ok ∅ None None None
               (Some Probe.refusing_notebook) in
  res = (fst res, snd res) /\
  CallUpdate {[3; 4; 6]}%positive {[5; 7]}%positive ∈ calls (out (snd res)) /\
  update_migration_lists Probe.refusing_notebook
    {[3; 4; 6]}%positive {[5; 7]}%positive
  = Raise (Failure "lists are read-only") /\
  call_sequence (Some Probe.refusing_notebook) (fst res) (calls (out (snd res))) /\
  fst res = Raise (Failure "lists are read-only") /\
  forall a, CallMigrate a ∉ calls (out (snd res)).
Proof.
  intros res.
  assert (H : res = (fst res, snd res)) by apply surjective_pairing.
  assert (Hin : CallUpdate {[3; 4; 6]}%positive {[5; 7]}%positive
                ∈ calls (out (snd res)))
    by (vm_compute; apply list_elem_of_further, list_elem_of_here).
  split; [exact H|]. split; [exact Hin|]. split; [reflexivity|].
  unfold res, Probe.run in H.
  destruct (calls_in_order _ _ _ _ _ _ _ _ _ _ _ _ _ _ _ _ _ _ _ H)
    as (Hseq & _ & Hraised & _).
  split; [exact Hseq|].
  exact (Hraised Probe.refusing_notebook _ _ (Failure "lists are read-only")
           eq_refl Hin eq_refl).
Defined.

Lemma empty_history_raises_witness :
  ("y", []) ∈ variable_snapshots Probe.graph_with_empty /\
  exists w',
    Session.run Probe.graph_with_empty Session.shell
      Session.migrate_finite Session.writer = (Raise IndexError, w') /\
    heap w' = Session.store /\ calls (out w') = [].
Proof.
  assert (Hy : ("y", []) ∈ variable_snapshots Probe.graph_with_empty)
    by apply list_elem_of_further, list_elem_of_here.
  split; [exact Hy|].
  destruct (empty_history_raises Session.sizeof Session.migrate_finite
              Session.writer Session.open_ok Session.order Session.shell
              Session.fingerprints ∅ "ckpt.pickle" ∅ None None None None
              (Session.start Probe.graph_with_empty) "y" Hy)
    as (w' & E & Hh & _ & Hc).
  exists w'. split; [exact E|]. split; [exact Hh | exact Hc].
Defined.

Lemma diagnostics_need_names_witness :
  let w := Session.start Session.graph in
  let A : gset vsref := {[3; 4; 5; 6; 7]}%positive in
  let w1 := snd (active_stage Session.graph w) in
  let w2 := snd (profile_stage Session.sizeof Session.order Session.shell
                   Session.fingerprints A w1) in
  active_stage Session.graph w = (Return A, w1) /\
  profile_stage Session.sizeof Session.order Session.shell
    Session.fingerprints A w1 = (Return tt, w2) /\
  truthy (Some "logs") = true /\
  Probe.run Session.graph Session.shell Session.migrate_finite Session.writer
    Session.open_ok Probe.timings (Some "logs") None None None
  = (Raise TypeError, w2).
Proof.
  intros w A w1 w2.
  assert (E1 : active_stage Session.graph w = (Return A, w1))
    by (vm_compute; reflexivity).
  assert (E2 : profile_stage Session.sizeof Session.order Session.shell
                 Session.fingerprints A w1 = (Return tt, w2))
    by (vm_compute; reflexivity).
  split; [exact E1|]. split; [exact E2|]. split; [reflexivity|].
  exact (diagnostics_need_names Session.sizeof Session.migrate_finite
           Session.writer Session.open_ok Session.order Session.shell
           Session.fingerprints ∅ "ckpt.pickle" Probe.timings
           (Some "logs") None None None w A w1 w2 E1 E2 eq_refl
           (or_introl eq_refl)).
Defined.

Lemma diagnostics_open_failure_witness :
  let w := Session.start Session.graph in
  let A : gset vsref := {[3; 4; 5; 6; 7]}%positive in
  let w1 := snd (active_stage Session.graph w) in
  let w2 := snd (profile_stage Session.sizeof Session.order Session.shell
                   Session.fingerprints A w1) in
  active_stage Session.graph w = (Return A, w1) /\
  profile_stage Session.sizeof Session.order Session.shell
    Session.fingerprints A w1 = (Return tt, w2) /\
  Probe.open_denied (diagnostics_path "logs" "nb" "exact")
  = Raise (Failure "permission denied") /\
  Probe.run Session.graph Session.shell Session.migrate_finite Session.writer
    Probe.open_denied Probe.timings (Some "logs") (Some "nb") (Some "exact") None
  = (Raise (Failure "permission denied"), w2).
Proof.
  intros w A w1 w2.
  assert (E1 : active_stage Session.graph w = (Return A, w1))
    by (vm_compute; reflexivity).
  assert (E2 : profile_stage Session.sizeof Session.order Session.shell
                 Session.fingerprints A w1 = (Return tt, w2))
    by (vm_compute; reflexivity).
  split; [exact E1|]. split; [exact E2|]. split; [reflexivity|].
  exact (diagnostics_open_failure Session.sizeof Session.migrate_finite
           Session.writer Probe.open_denied Session.order Session.shell
           Session.fingerprints ∅ "ckpt.pickle" Probe.timings
           (Some "logs") (Some "nb") (Some "exact") None
           w A w1 w2 "logs" "nb" "exact" (Failure "permission denied")
           E1 E2 eq_refl eq_refl eq_refl eq_refl eq_refl).
Defined.

Lemma diagnostics_missing_timing_witness :
  let w := Session.start Session.graph in
  let A : gset vsref := {[3; 4; 5; 6; 7]}%positive in
  let w1 := snd (active_stage Session.graph w) in
  let w2 := snd (profile_stage Session.sizeof Session.order Session.shell
                   Session.fingerprints A w1) in
  let res := Probe.run Session.graph Session.shell Session.migrate_finite
               Session.writer Session.open_ok ∅
               (Some "logs") (Some "nb") (Some "exact") None in
  active_stage Session.graph w = (Return A, w1) /\
  profile_stage Session.sizeof Session.order Session.shell
    Session.fingerprints A w1 = (Return tt, w2) /\
  (∅ : gmap string N) !! "idgraph" = None /\
  fst res = Raise (KeyError "idgraph") /\
  out (snd res)
  = (out w2 ++ [LogWrite (diagnostics_path "logs" "nb" "exact") (LogOverlappings 2);
                LogWrite (diagnostics_path "logs" "nb" "exact") LogProfileStage])%list.
Proof.
  intros w A w1 w2 res.
  assert (E1 : active_stage Session.graph w = (Return A, w1))
    by (vm_compute; reflexivity).
  assert (E2 : profile_stage Session.sizeof Session.order Session.shell
                 Session.fingerprints A w1 = (Return tt, w2))
    by (vm_compute; reflexivity).
  split; [exact E1|]. split; [exact E2|]. split; [reflexivity|].
  pose proof (diagnostics_missing_timing Session.sizeof Session.migrate_finite
                Session.writer Session.open_ok Session.order Session.shell
                Session.fingerprints ∅ "ckpt.pickle" ∅
                (Some "logs") (Some "nb") (Some "exact") None
                w A w1 w2 "logs" "nb" "exact"
                E1 E2 eq_refl eq_refl eq_refl eq_refl eq_refl eq_refl) as H.
  cbv zeta in H. change (checkpoint _ _ _ _ _ _ _ _ _ _ _ _ _ _ _) with res in H.
  rewrite H. simpl. split; reflexivity.
Defined.

Lemma logging_off_ignores_diagnostics_witness :
  truthy (Some "") = false /\
  Probe.run Session.graph Session.shell Session.migrate_finite Session.writer
    Session.open_ok Probe.timings (Some "") None None None
  = Probe.run Session.graph Session.shell Session.migrate_finite Session.writer
      Probe.open_denied ∅ (Some "") None None None.
Proof.
  split; [reflexivity|].
  exact (logging_off_ignores_diagnostics Session.sizeof Session.migrate_finite
           Session.writer Session.open_ok Session.order Session.shell
           Session.fingerprints ∅ "ckpt.pickle" Probe.timings
           (Some "") None None None Probe.open_denied ∅
           (Session.start Session.graph) eq_refl).
Defined.

Lemma checkpoint_succeeds_witness :
  let w := Session.start Session.graph in
  (forall X, Session.order X ≡ₚ elements X) /\
  Forall (fun entry => snd entry ≠ []) (variable_snapshots (session_graph w)) /\
  truthy None = false /\
  exists w' s a,
    Probe.run Session.graph Session.shell Session.migrate_finite Session.writer
      Session.open_ok ∅ None None None (Some Probe.notebook)
    = (Return true, w') /\
    select_calls (out w') = [s] /\ migrate_calls (out w') = [a].
Proof.
  intros w.
  assert (Hperm : forall X, Session.order X ≡ₚ elements X)
    by (intros X; reflexivity).
  assert (Hne : Forall (fun entry : string * list vsref => snd entry ≠ [])
                       (variable_snapshots (session_graph w)))
    by (repeat constructor; discriminate).
  assert (Hns : forall n l r,
            (n, l) ∈ variable_snapshots (session_graph w) ->
            last l = Some r -> vs_deleted (heap w r) = false ->
            is_Some (Session.fingerprints !! vs_name (heap w r)) ->
            is_Some (user_ns Session.shell !! vs_name (heap w r))).
  { intros n l r Hl Hlast Hlive _. simpl in Hl.
    repeat (apply elem_of_cons in Hl as [Hl|Hl];
            [ inversion Hl; subst; simpl in Hlast; inversion Hlast; subst;
              first [ discriminate Hlive | vm_compute; eexists; reflexivity ] | ]).
    by apply elem_of_nil in Hl. }
  assert (Hsel : forall s h, exists result,
            fst (Session.migrate_finite s h None None None) = Return result)
    by (intros s h; eexists; reflexivity).
  assert (Hnb : forall nb mig rec,
            Some Probe.notebook = Some nb ->
            update_migration_lists nb mig rec = Return tt)
    by (intros nb mig rec [= <-]; reflexivity).
  assert (Hmig : forall a h, exists v, Session.writer a h = Return v)
    by (intros a h; eexists; reflexivity).
  split; [exact Hperm|]. split; [exact Hne|]. split; [reflexivity|].
  exact (checkpoint_succeeds Session.sizeof Session.migrate_finite Session.writer
           Session.open_ok Session.order Session.shell Session.fingerprints
           ∅ "ckpt.pickle" ∅ None None None (Some Probe.notebook)
           Hperm w Hne Hns eq_refl Hsel Hnb Hmig).
Defined.

Lemma selector_sees_profiled_sizes_witness :
  let res := Session.run Session.graph Session.shell
               Session.migrate_finite Session.writer in
  let s := mkSelector (Some Session.graph) {[3; 4; 5; 6; 7]}%positive
             [(3, 4); (4, 3)]%positive (mkObj 90 None) in
  (forall X, Session.order X ≡ₚ elements X) /\
  s ∈ select_calls (out (snd res)) /\
  forall r fp,
    r ∈ active_vss s ->
    Session.fingerprints !! vs_name (Session.store r) = Some fp ->
    exists v, user_ns Session.shell !! vs_name (Session.store r) = Some v /\
              vs_size (heap (snd res) r) = profiled_size Session.sizeof fp v.
Proof.
  intros res s.
  assert (Hperm : forall X, Session.order X ≡ₚ elements X)
    by (intros X; reflexivity).
  assert (H : res = (fst res, snd res)) by apply surjective_pairing.
  assert (Hs : s ∈ select_calls (out (snd res)))
    by (vm_compute; apply list_elem_of_here).
  split; [exact Hperm|]. split; [exact Hs|].
  unfold res, Session.run in H.
  exact (proj2 (proj2 (proj2
           (selector_sees_profiled_sizes _ _ _ _ _ _ _ _ _ _ _ _ _ _ Hperm
              _ _ _ _ _ _ H Hs)))).
Defined.

Lemma one_active_per_name_witness :
  let w := Session.start Session.graph in
  let A : gset vsref := {[3; 4; 5; 6; 7]}%positive in
  NoDup (map fst (variable_snapshots Session.graph)) /\
  (forall n l r, (n, l) ∈ variable_snapshots Session.graph -> r ∈ l ->
                 vs_name (heap w r) = n) /\
  active_stage Session.graph w
  = (Return A, snd (active_stage Session.graph w)) /\
  (3%positive : vsref) = 3%positive.
Proof.
  intros w A.
  assert (ND : NoDup (map fst (variable_snapshots Session.graph)))
    by compute_done.
  assert (Hname : forall n l r,
            (n, l) ∈ variable_snapshots Session.graph -> r ∈ l ->
            vs_name (heap w r) = n).
  { intros n l r Hl Hr. simpl in Hl.
    repeat (apply elem_of_cons in Hl as [Hl|Hl];
            [ inversion Hl; subst;
              repeat (apply elem_of_cons in Hr as [->|Hr]; [reflexivity|]);
              by apply elem_of_nil in Hr | ]).
    by apply elem_of_nil in Hl. }
  assert (E : active_stage Session.graph w
              = (Return A, snd (active_stage Session.graph w)))
    by (vm_compute; reflexivity).
  assert (H3 : (3%positive : vsref) ∈ A) by (vm_compute; reflexivity).
  split; [exact ND|]. split; [exact Hname|]. split; [exact E|].
  exact (one_active_per_name Session.graph w A _ 3%positive 3%positive
           ND Hname E H3 H3 eq_refl).
Defined.

Lemma backwards_perm X : Probe.backwards X ≡ₚ elements X.
Proof. unfold Probe.backwards. apply reverse_Permutation. Qed.

Lemma profiling_ignores_iteration_order_witness :
  let w := Session.start Session.graph in
  let A : gset vsref := {[3; 4; 5; 6; 7]}%positive in
  let r1 := profile_stage Session.sizeof Session.order Session.shell
              Session.fingerprints A w in
  let r2 := profile_stage Session.sizeof Probe.backwards Session.shell
              Session.fingerprints A w in
  (forall X, Session.order X ≡ₚ elements X) /\
  (forall X, Probe.backwards X ≡ₚ elements X) /\
  (fst r1 = Return tt <-> fst r2 = Return tt) /\
  (fst r1 = Return tt -> forall r, heap (snd r1) r = heap (snd r2) r).
Proof.
  intros w A r1 r2.
  assert (Hperm : forall X, Session.order X ≡ₚ elements X)
    by (intros X; reflexivity).
  assert (H1 : r1 = (fst r1, snd r1)) by apply surjective_pairing.
  assert (H2 : r2 = (fst r2, snd r2)) by apply surjective_pairing.
  split; [exact Hperm|]. split; [exact backwards_perm|].
  exact (profiling_ignores_iteration_order Session.sizeof Session.shell
           Session.fingerprints Session.order Probe.backwards
           Hperm backwards_perm A w _ _ _ _ H1 H2).
Defined.

Lemma overlaps_ignore_iteration_order_witness :
  (forall X, Session.order X ≡ₚ elements X) /\
  (forall X, Probe.backwards X ≡ₚ elements X) /\
  overlap_loops Session.fingerprints Session.store
    (Session.order {[3; 4; 5; 6; 7]}%positive)
  ≡ₚ overlap_loops Session.fingerprints Session.store
       (Probe.backwards {[3; 4; 5; 6; 7]}%positive).
Proof.
  assert (Hperm : forall X, Session.order X ≡ₚ elements X)
    by (intros X; reflexivity).
  split; [exact Hperm|]. split; [exact backwards_perm|].
  exact (overlaps_ignore_iteration_order Session.fingerprints Session.order
           Probe.backwards Hperm backwards_perm Session.store
           {[3; 4; 5; 6; 7]}%positive).
Defined.
